(** * LogParserForKarpenter, package [s3]: the CSV export of the nodeclaim map

    A shallow embedding of [s3/s3.go]: the configuration read by [init], the
    CSV serialisation [convertToCSV] and the upload transaction [UploadToS3].

    Conventions.
    - A Go [string] is a [string] (a sequence of bytes); [bytes.Buffer] is the
      string written so far and [WriteString] appends to it.
    - The map [map[string]lp4k.Nodeclaimstruct] is a [gmap]; the order in which
      one [range] over it yields its entries is not fixed by Go, so it is an
      explicit argument: a list that is a permutation of the map's entries.
    - An index expression [s[i]] is [s !! i]; out of range Go panics, which is
      [None] here.
    - The struct [lp4k.Nodeclaimstruct] is declared in package [parser]; what
      this package uses of it (its reflected fields and [Createdtime] with the
      operator [>]) is the class [Shape]. *)

From Stdlib Require Import Ascii String.
From stdpp Require Import gmap strings list fin_maps pretty sorting.

Open Scope string_scope.
Open Scope list_scope.

(** ** Strings *)

(** The line feed written by ["\n"]. *)
Definition LF : string := String "010"%char "".

(** [%d] of a non-negative [int]. *)
Definition itoa (n : nat) : string := pretty n.

(** [strings.HasSuffix(s, suffix)]:
    [len(s) >= len(suffix) && s[len(s)-len(suffix):] == suffix]. *)
Definition HasSuffix (s suffix : string) : bool :=
  Nat.leb (String.length suffix) (String.length s)
  && bool_decide
       (String.substring (String.length s - String.length suffix)
          (String.length suffix) s = suffix).

(** [strings.TrimSuffix(s, suffix)]: [s[:len(s)-len(suffix)]] when [s] ends
    with [suffix], else [s]. *)
Definition TrimSuffix (s suffix : string) : string :=
  if HasSuffix s suffix
  then String.substring 0 (String.length s - String.length suffix) s
  else s.

(** ** The record shape *)

(** What [convertToCSV] uses of [lp4k.Nodeclaimstruct]:
    [reflect.TypeOf(v).NumField()], [reflect.TypeOf(v).Field(i).Name], the
    text [fmt.Sprintf("%v", reflect.ValueOf(v).Field(i).Interface())] of field
    [i], and the field [Createdtime], of a type ordered by [>]. The fields
    are exported, so [Interface()] returns; [Field(i)] is used for
    [i < NumField()] only, where it does not panic. *)
Class Shape (R : Type) := {
  NumField : nat;
  FieldName : nat → string;
  FieldText : R → nat → string;
  Time : Type;
  Createdtime : R → Time;
  Time_gt : Time → Time → bool
}.

(** ** convertToCSV *)

Section convertToCSV.
Context {R : Type} `{Shape R}.

(** [type keyvalue struct { key string; value lp4k.Nodeclaimstruct }] *)
Record keyvalue := KeyValue { key : string; value : R }.

(** [fmt.Sprintf("%s,%s[%d]", header, name, pos)] *)
Definition Sprintf_header (header name : string) (pos : nat) : string :=
  header +:+ "," +:+ name +:+ "[" +:+ itoa pos +:+ "]".

(** [for i := range reflecttype.NumField() { header = ... }], with [n]
    iterations left and the loop variable at [i]. *)
Fixpoint header_loop (n i : nat) (header : string) : string :=
  match n with
  | 0 => header
  | S n' => header_loop n' (S i) (Sprintf_header header (FieldName i) (i + 2))
  end.

Definition gen_header : string := header_loop NumField 0 "Nodeclaim[1]".

(** [for k, v := range *nodeclaimmap { s = append(s, keyvalue{k, v}) }],
    over the entries in the order the [range] yields them. *)
Definition snapshot (order : list (string * R)) : list keyvalue :=
  foldl (λ s kv, s ++ [KeyValue kv.1 kv.2]) [] order.

(** [if s[i].value.Createdtime > s[j].value.Createdtime { s[i], s[j] = s[j], s[i] }] *)
Definition compare_swap (i j : nat) (s : list keyvalue) : option (list keyvalue) :=
  si ← s !! i;
  sj ← s !! j;
  if Time_gt (Createdtime (value si)) (Createdtime (value sj))
  then Some (<[j := si]> (<[i := sj]> s))
  else Some s.

(** [for j := i + 1; j < len(s); j++ { ... }] with [n] iterations left, the
    loop variable at [j]. *)
Fixpoint inner_loop (n i j : nat) (s : list keyvalue) : option (list keyvalue) :=
  match n with
  | 0 => Some s
  | S n' => s' ← compare_swap i j s; inner_loop n' i (S j) s'
  end.

(** [for i := 0; i < len(s); i++ { ... }] with [n] iterations left, the loop
    variable at [i]. The swap keeps [len(s)], so the inner loop, which runs
    while [j < len(s)] from [j = i + 1], runs [len(s) - (i + 1)] times. *)
Fixpoint outer_loop (n i : nat) (s : list keyvalue) : option (list keyvalue) :=
  match n with
  | 0 => Some s
  | S n' => s' ← inner_loop (length s - (i + 1)) i (i + 1) s; outer_loop n' (S i) s'
  end.

Definition bubble_sort (s : list keyvalue) : option (list keyvalue) :=
  outer_loop (length s) 0 s.

(** [for i := range reflectval.NumField() {
      csvBuffer.WriteString(fmt.Sprintf(",%v", reflectval.Field(i).Interface())) }] *)
Fixpoint fields_loop (n i : nat) (v : R) (csvBuffer : string) : string :=
  match n with
  | 0 => csvBuffer
  | S n' => fields_loop n' (S i) v (csvBuffer +:+ ("," +:+ FieldText v i))
  end.

(** The body of [for _, v := range s]. *)
Definition write_row (csvBuffer : string) (v : keyvalue) : string :=
  let csvBuffer := csvBuffer +:+ key v in
  let csvBuffer := fields_loop NumField 0 (value v) csvBuffer in
  csvBuffer +:+ LF.

Definition rows_loop (s : list keyvalue) (csvBuffer : string) : string :=
  foldl write_row csvBuffer s.

(** [convertToCSV(nodeclaimmap)], where the [range] over the map yields
    [order]. [None] is a panic. *)
Definition convertToCSV (nodeclaimmap : gmap string R)
    (order : list (string * R)) : option string :=
  let csvBuffer := "" in
  let header := gen_header in
  let csvBuffer := csvBuffer +:+ header in
  let csvBuffer := csvBuffer +:+ LF in
  if Nat.eqb (size nodeclaimmap) 0 then Some csvBuffer
  else
    let s := snapshot order in
    s ← bubble_sort s;
    Some (rows_loop s csvBuffer).

(** [order] is an order in which a [range] may yield the entries of the map:
    each entry once. *)
Definition range_of (nodeclaimmap : gmap string R)
    (order : list (string * R)) : Prop :=
  order ≡ₚ map_to_list nodeclaimmap.

End convertToCSV.

Arguments keyvalue R : clear implicits.

(** ** Time *)

(** An instant as [time.Time] presents it in the process's local zone: the
    results of [t.Date()] and [t.Clock()]. *)
Record instant := {
  Year : Z; Month : Z; Day : Z; Hour : Z; Minute : Z; Second : Z
}.

(** The decimal digit [d], for [0 <= d <= 9]. *)
Definition digit (d : Z) : ascii := ascii_of_nat (48 + Z.to_nat d).

Fixpoint zeros (n : nat) : string :=
  match n with
  | 0 => ""
  | S n' => String "0"%char (zeros n')
  end.

(** [appendInt(b, x, width)] of package [time], as the text it appends: a sign
    for a negative [x], then the digits of its magnitude, with zeros in front
    up to [width]; two and four digit fields take the fast paths. *)
Definition appendInt (x : Z) (width : nat) : string :=
  let sign := if (x <? 0)%Z then "-" else "" in
  let u := Z.abs x in
  if Nat.eqb width 2 && (u <? 100)%Z then
    sign +:+ String (digit (u / 10)) (String (digit (u mod 10)) "")
  else if Nat.eqb width 4 && (u <? 10000)%Z then
    sign +:+ String (digit (u / 1000)) (String (digit (u / 100 mod 10))
               (String (digit (u / 10 mod 10)) (String (digit (u mod 10)) "")))
  else
    let digits := pretty (Z.to_N u) in
    sign +:+ zeros (width - String.length digits) +:+ digits.

(** [t.Format(layout)] for the layout chunks this package uses: ["2006"] (the
    year, four digits), ["01"] (month), ["02"] (day), ["15"] (hour),
    ["04"] (minute) and ["05"] (second), two digits each; every other byte is
    copied. Go's further chunks (names of months and days, the 12-hour clock,
    zones, fractions) do not occur in that layout and are not modelled. *)
Fixpoint Format (t : instant) (layout : string) : string :=
  match layout with
  | String "2" (String "0" (String "0" (String "6" rest))) =>
      appendInt (Year t) 4 +:+ Format t rest
  | String "0" (String "1" rest) => appendInt (Month t) 2 +:+ Format t rest
  | String "0" (String "2" rest) => appendInt (Day t) 2 +:+ Format t rest
  | String "1" (String "5" rest) => appendInt (Hour t) 2 +:+ Format t rest
  | String "0" (String "4" rest) => appendInt (Minute t) 2 +:+ Format t rest
  | String "0" (String "5" rest) => appendInt (Second t) 2 +:+ Format t rest
  | String c rest => String c (Format t rest)
  | EmptyString => ""
  end.

(** ** Errors *)

(** An [error] value: one returned by the AWS SDK, of which only the text of
    [Error()] is observed, or a [*fmt.wrapError], which [fmt.Errorf] builds
    for a format with one [%w]. *)
Inductive error :=
| sdkError (msg : string)
| wrapError (msg : string) (err : error).

(** [err.Error()] *)
Definition Error (e : error) : string :=
  match e with
  | sdkError msg => msg
  | wrapError msg _ => msg
  end.

(** [errors.Unwrap(err)] *)
Definition Unwrap (e : error) : option error :=
  match e with
  | sdkError _ => None
  | wrapError _ err => Some err
  end.

(** [fmt.Errorf(prefix + "%w", err)] *)
Definition Errorf_w (prefix : string) (err : error) : error :=
  wrapError (prefix +:+ Error err) err.

(** ** The package state and its effects *)

Definition s3BucketEnv : string := "LP4K_S3_BUCKET".
Definition s3PrefixEnv : string := "LP4K_S3_PREFIX".
Definition s3RegionEnv : string := "LP4K_S3_REGION".

(** [var s3Bucket, s3Prefix, s3Region string; var s3Enabled bool] *)
Record vars := {
  s3Bucket : string; s3Prefix : string; s3Region : string; s3Enabled : bool
}.

(** [&s3.PutObjectInput{Bucket: ..., Key: ..., Body: ..., ContentType: ...}],
    with the bytes the [Body] reader yields. *)
Record PutObjectInput := {
  Bucket : string; Key : string; Body : string; ContentType : string
}.

(** What a run does besides computing: the calls into the SDK and the clock,
    the call of [convertToCSV], and the lines written to [os.Stderr]. *)
Inductive event :=
| call_LoadDefaultConfig (region : string)
| call_NewFromConfig
| call_convertToCSV
| call_Now
| call_PutObject (input : PutObjectInput)
| write_Stderr (text : string).

(** The state a function of the package runs in: the package variables and
    the events so far. *)
Record world := { globals : vars; trace : list event }.

(** A computation: from the state before to the state after and a result. *)
Definition Eff (A : Type) : Type := world → world * A.

#[export] Instance Eff_ret : MRet Eff := λ A a w, (w, a).
#[export] Instance Eff_bind : MBind Eff :=
  λ A B f m w, let r := m w in f r.2 r.1.

Definition emit (e : event) : Eff unit :=
  λ w, ({| globals := globals w; trace := trace w ++ [e] |}, tt).
Definition read_globals : Eff vars := λ w, (w, globals w).
Definition write_globals (g : vars) : Eff unit :=
  λ w, ({| globals := g; trace := trace w |}, tt).

(** The state before [init]: Go's zero values, nothing done yet. *)
Definition world0 : world :=
  {| globals := {| s3Bucket := ""; s3Prefix := ""; s3Region := ""; s3Enabled := false |};
     trace := [] |}.

(** ** The configuration *)

(** [func init()], with [os.Getenv] as [Getenv] (the empty string for a
    variable that is not set). *)
Definition init (Getenv : string → string) : Eff unit :=
  let bucket := Getenv s3BucketEnv in
  let prefix := Getenv s3PrefixEnv in
  let region := Getenv s3RegionEnv in
  let enabled := negb (String.eqb bucket "") in
  if enabled then
    let prefix := if String.eqb prefix "" then "karpenter-logs" else prefix in
    let region := if String.eqb region "" then "us-east-1" else region in
    write_globals {| s3Bucket := bucket; s3Prefix := prefix;
                     s3Region := region; s3Enabled := enabled |};;
    emit (write_Stderr ("S3 upload enabled: bucket=" +:+ bucket +:+ ", prefix="
                        +:+ prefix +:+ ", region=" +:+ region +:+ LF))
  else
    write_globals {| s3Bucket := bucket; s3Prefix := prefix;
                     s3Region := region; s3Enabled := enabled |}.

(** [func IsEnabled() bool] *)
Definition IsEnabled : Eff bool :=
  g ← read_globals; mret (s3Enabled g).

(** [func GetConfig() (bucket, prefix, region string)] *)
Definition GetConfig : Eff (string * string * string) :=
  g ← read_globals; mret (s3Bucket g, s3Prefix g, s3Region g).

(** ** UploadToS3 *)

(** What [UploadToS3] calls outside the package: the AWS SDK and the clock.
    Each is called at most once in a run, so each is a function of its
    arguments: [LoadDefaultConfig ctx region] is the result of
    [config.LoadDefaultConfig(ctx, config.WithRegion(region))], [PutObject] is
    [nil] ([None]) or the error of [client.PutObject(ctx, input)], and [Now] is
    the value of [time.Now()]. *)
Class Host := {
  Context_ : Type;
  Config : Type;
  Client : Type;
  LoadDefaultConfig : Context_ → string → Config + error;
  NewFromConfig : Config → Client;
  PutObject : Client → Context_ → PutObjectInput → option error;
  Now : instant
}.

(** How a call ends: it returns an [error] ([None] is [nil]) or panics. *)
Inductive outcome :=
| Return (err : option error)
| Panic.

Section UploadToS3.
Context `{Host} {R : Type} `{Shape R}.

(** [fmt.Sprintf("%s/karpenter-nodeclaims-%s.csv", strings.TrimSuffix(s3Prefix, "/"), timestamp)] *)
Definition Sprintf_key (prefix timestamp : string) : string :=
  TrimSuffix prefix "/" +:+ "/karpenter-nodeclaims-" +:+ timestamp +:+ ".csv".

(** [UploadToS3(ctx, nodeclaimmap)], where the [range] over the map in
    [convertToCSV] yields [order]. *)
Definition UploadToS3 (ctx : Context_) (nodeclaimmap : gmap string R)
    (order : list (string * R)) : Eff outcome :=
  g ← read_globals;
  if negb (s3Enabled g) then mret (Return None)
  else
    emit (call_LoadDefaultConfig (s3Region g));;
    match LoadDefaultConfig ctx (s3Region g) with
    | inr err => mret (Return (Some (Errorf_w "unable to load AWS SDK config: " err)))
    | inl cfg =>
        emit call_NewFromConfig;;
        let client := NewFromConfig cfg in
        emit call_convertToCSV;;
        match convertToCSV nodeclaimmap order with
        | None => mret Panic
        | Some csvData =>
            emit call_Now;;
            let timestamp := Format Now "2006-01-02-15-04-05" in
            let s3Key := Sprintf_key (s3Prefix g) timestamp in
            let input := {| Bucket := s3Bucket g; Key := s3Key;
                            Body := csvData; ContentType := "text/csv" |} in
            emit (call_PutObject input);;
            match PutObject client ctx input with
            | Some err => mret (Return (Some (Errorf_w "failed to upload to S3: " err)))
            | None =>
                emit (write_Stderr ("Successfully uploaded to s3://" +:+ s3Bucket g
                                    +:+ "/" +:+ s3Key +:+ LF));;
                mret (Return None)
            end
        end
    end.

End UploadToS3.

(** ** A record shape with two fields *)

Module TwoFields.

(** [type Nodeclaimstruct struct { Name string; Createdtime int64 }] *)
Record Nodeclaimstruct := { Name : string; Createdtime : Z }.

(** Its reflection: [%v] of a string is the string, of an integer its
    decimal text. *)
#[global] Instance shape : Shape Nodeclaimstruct :=
  Build_Shape Nodeclaimstruct
    2
    (λ i, match i with 0 => "Name" | 1 => "Createdtime" | _ => "" end)
    (λ v i, match i with 0 => Name v | 1 => pretty (Createdtime v) | _ => "" end)
    Z
    Createdtime
    Z.gtb.

Definition record (name : string) (created : Z) : Nodeclaimstruct :=
  {| Name := name; Createdtime := created |}.

(** Three records created at 30, 10 and 20 under the identifiers ["c"], ["a"]
    and ["b"], and one order a [range] over the map may take. *)
Definition order_cab : list (string * Nodeclaimstruct) :=
  [("c", record "node-c" 30); ("a", record "node-a" 10); ("b", record "node-b" 20)].

Definition order_bca : list (string * Nodeclaimstruct) :=
  [("b", record "node-b" 20); ("c", record "node-c" 30); ("a", record "node-a" 10)].

Definition nodeclaims : gmap string Nodeclaimstruct := list_to_map order_cab.

(** Two records created at the same time, one with a comma in its name. *)
Definition order_xy : list (string * Nodeclaimstruct) :=
  [("x", record "one,two" 7); ("y", record "three" 7)].

Definition order_yx : list (string * Nodeclaimstruct) :=
  [("y", record "three" 7); ("x", record "one,two" 7)].

Definition twins : gmap string Nodeclaimstruct := list_to_map order_xy.

End TwoFields.

(** ** A host for tests *)

Module Stub.

(** A host in which loading the SDK configuration gives [load], every
    [PutObject] gives [put], and the clock shows [now]. *)
Definition host (load : unit + error) (put : option error) (now : instant) : Host :=
  {| Context_ := unit; Config := unit; Client := unit;
     LoadDefaultConfig := λ _ _, load;
     NewFromConfig := λ cfg, cfg;
     PutObject := λ _ _ _, put;
     Now := now |}.

(** 2024-01-02T03:04:05 *)
Definition clock : instant :=
  {| Year := 2024; Month := 1; Day := 2; Hour := 3; Minute := 4; Second := 5 |}.

(** The variables as [init] leaves them for the bucket ["archive"], the
    prefix ["logs/"] and no region. *)
Definition Getenv (name : string) : string :=
  if String.eqb name s3BucketEnv then "archive"
  else if String.eqb name s3PrefixEnv then "logs/"
  else "".

Definition enabled : world := (init Getenv world0).1.

(** The state when no variable is set. *)
Definition disabled : world := (init (λ _, "") world0).1.

End Stub.

(** * The vocabulary of the properties *)

(** The strings of a list, one after the other. *)
Definition joins (l : list string) : string := foldr String.app "" l.

(** The number of line feeds in a text, that is, of the lines it ends. *)
Fixpoint line_feeds (s : string) : nat :=
  match s with
  | EmptyString => 0
  | String c s' => (if Ascii.eqb c "010" then 1 else 0) + line_feeds s'
  end.

(** [>] on the type of [Createdtime] orders it, as it does Go's integers and
    strings: of two values one is not above the other, and "not above" is
    transitive. *)
Class OrderedTime (R : Type) `{Shape R} : Prop := {
  Time_gt_total : ∀ a b : Time, Time_gt a b = false ∨ Time_gt b a = false;
  Time_le_trans : ∀ a b c : Time,
    Time_gt a b = false → Time_gt b c = false → Time_gt a c = false
}.

(** Two values neither of which is above the other are the same value. *)
Class AntisymTime (R : Type) `{Shape R} : Prop :=
  Time_le_antisym : ∀ a b : Time,
    Time_gt a b = false → Time_gt b a = false → a = b.

Section vocabulary.
Context {R : Type} `{Shape R}.

(** [a] is not after [b]: the test [a.value.Createdtime > b.value.Createdtime]
    of the sort is false. *)
Definition not_after (a b : keyvalue R) : Prop :=
  Time_gt (Createdtime (value a)) (Createdtime (value b)) = false.

(** One run of the inner loop seen on the slice [s[i:]] = [x :: todo]: the
    element at [i] is exchanged with each later element it is above. *)
Fixpoint sift (x : keyvalue R) (todo : list (keyvalue R)) :
    keyvalue R * list (keyvalue R) :=
  match todo with
  | [] => (x, [])
  | y :: todo' =>
      if Time_gt (Createdtime (value x)) (Createdtime (value y))
      then let r := sift y todo' in (r.1, x :: r.2)
      else let r := sift x todo' in (r.1, y :: r.2)
  end.

(** The header as the specification words it: the label of the identifier
    column, then a column ["<FieldName>[<position>]"] per field, positions
    from 2, separated by commas. *)
Definition column (i : nat) : string :=
  FieldName i +:+ "[" +:+ itoa (i + 2) +:+ "]".

Definition header_text : string :=
  String.concat "," ("Nodeclaim[1]" :: (column <$> seq 0 NumField)).

(** A data row as the specification words it: the identifier, then the text
    of each field in declared order, separated by commas, and a line feed. *)
Definition row_text (v : keyvalue R) : string :=
  String.concat "," (key v :: (FieldText (value v) <$> seq 0 NumField)) +:+ LF.

(** [keyvalue{k, v}] of an entry [(k, v)]. *)
Definition of_entry (kv : string * R) : keyvalue R := KeyValue kv.1 kv.2.

(** The entries of the map as [keyvalue]s, in the order of [map_to_list]. *)
Definition entries (nodeclaimmap : gmap string R) : list (keyvalue R) :=
  of_entry <$> map_to_list nodeclaimmap.

(** No two entries of the map have the same [Createdtime]. *)
Definition distinct_Createdtime (nodeclaimmap : gmap string R) : Prop :=
  ∀ k1 k2 v1 v2,
    nodeclaimmap !! k1 = Some v1 → nodeclaimmap !! k2 = Some v2 →
    Createdtime v1 = Createdtime v2 → k1 = k2.

End vocabulary.

(** Two and four decimal digits. *)
Definition two_digits (x : Z) : string :=
  String (digit (x / 10)) (String (digit (x mod 10)) "").

Definition four_digits (x : Z) : string :=
  String (digit (x / 1000)) (String (digit (x / 100 mod 10))
    (String (digit (x / 10 mod 10)) (String (digit (x mod 10)) ""))).

(** The instant is one a calendar with four-digit years shows. *)
Definition in_calendar (t : instant) : Prop :=
  (0 ≤ Year t ≤ 9999 ∧ 1 ≤ Month t ≤ 12 ∧ 1 ≤ Day t ≤ 31
   ∧ 0 ≤ Hour t ≤ 23 ∧ 0 ≤ Minute t ≤ 59 ∧ 0 ≤ Second t ≤ 59)%Z.

(** [YYYY-MM-DD-HH-MM-SS] *)
Definition stamp (t : instant) : string :=
  String.concat "-"
    [four_digits (Year t); two_digits (Month t); two_digits (Day t);
     two_digits (Hour t); two_digits (Minute t); two_digits (Second t)].

(** The state [w] after the further events [evs]. *)
Definition after (w : world) (evs : list event) : world :=
  {| globals := globals w; trace := trace w ++ evs |}.

(** The events of a run that started in [w] and ended in [w']. *)
Definition new_events (w w' : world) : list event :=
  drop (length (trace w)) (trace w').

(** The inputs of the [PutObject] calls and the lines written to [os.Stderr]
    among some events. *)
Definition puts (evs : list event) : list PutObjectInput :=
  omap (λ e, match e with call_PutObject input => Some input | _ => None end) evs.

Definition notices (evs : list event) : list string :=
  omap (λ e, match e with write_Stderr text => Some text | _ => None end) evs.

(** The two kinds of error [UploadToS3] returns. The package declares no
    error type: both are [fmt.Errorf] wrappers of the cause, told apart by the
    text put before it. *)
Definition ConfigurationError (err cause : error) : Prop :=
  err = Errorf_w "unable to load AWS SDK config: " cause.

Definition UploadError (err cause : error) : Prop :=
  err = Errorf_w "failed to upload to S3: " cause.

Section run_vocabulary.
Context `{Host}.

(** The [PutObjectInput] of a run: the bucket, the key made of the prefix and
    the time, the CSV text, and the content type. *)
Definition upload_input (g : vars) (csvData : string) : PutObjectInput :=
  {| Bucket := s3Bucket g;
     Key := Sprintf_key (s3Prefix g) (Format Now "2006-01-02-15-04-05");
     Body := csvData;
     ContentType := "text/csv" |}.

(** The line of the success notice. *)
Definition success_notice (g : vars) : string :=
  "Successfully uploaded to s3://" +:+ s3Bucket g +:+ "/"
  +:+ Sprintf_key (s3Prefix g) (Format Now "2006-01-02-15-04-05") +:+ LF.

End run_vocabulary.

(** One call of an exported function of the package, from the state before to
    the state after; [init] is not among them: Go runs it once, first. *)
Inductive call : world → world → Prop :=
| call_IsEnabled (w : world) : call w (IsEnabled w).1
| call_GetConfig (w : world) : call w (GetConfig w).1
| call_UploadToS3 (host : Host) (R : Type) (shape : Shape R) (ctx : Context_)
    (nodeclaimmap : gmap string R) (order : list (string * R)) (w : world) :
    call w (UploadToS3 ctx nodeclaimmap order w).1.

(** Three records, two of them created at the same time and the third before
    them. *)
Module Tied.

Definition order_abc : list (string * TwoFields.Nodeclaimstruct) :=
  [("a", TwoFields.record "node-a" 7); ("b", TwoFields.record "node-b" 7);
   ("c", TwoFields.record "node-c" 3)].

Definition nodeclaims : gmap string TwoFields.Nodeclaimstruct :=
  list_to_map order_abc.

End Tied.

(** The number of bytes [c] in a text; [commas] counts the separators. *)
Fixpoint count_byte (c : ascii) (s : string) : nat :=
  match s with
  | EmptyString => 0
  | String c' s' => (if Ascii.eqb c' c then 1 else 0) + count_byte c s'
  end.

Definition commas (s : string) : nat := count_byte "," s.

(** [c] is none of the ten decimal digits. *)
Definition not_digit (c : ascii) : Prop := ∀ d : N, pretty_N_char d ≠ c.

(** * Lemmas *)

(** ** The exchange sort *)

Section sort.
Context {R : Type} `{Shape R}.
Implicit Types (x y : keyvalue R) (s pre done todo : list (keyvalue R)).

Lemma insert_middle {A} (l1 l2 : list A) (a b : A) :
  <[length l1 := b]> (l1 ++ a :: l2) = l1 ++ b :: l2.
Proof.
  replace (length l1) with (length l1 + 0) at 1 by lia.
  by rewrite insert_app_r.
Qed.

Lemma compare_swap_middle pre x done y todo :
  compare_swap (length pre) (length pre + 1 + length done)
    (pre ++ x :: done ++ y :: todo)
  = Some (if Time_gt (Createdtime (value x)) (Createdtime (value y))
          then pre ++ y :: done ++ x :: todo
          else pre ++ x :: done ++ y :: todo).
Proof.
  unfold compare_swap.
  rewrite (list_lookup_middle pre (done ++ y :: todo) x (length pre)) by done.
  simpl.
  assert (Hj : length pre + 1 + length done = length (pre ++ x :: done))
    by (rewrite length_app; simpl; lia).
  assert (Hy : (pre ++ x :: done ++ y :: todo) !! (length pre + 1 + length done)
               = Some y).
  { replace (pre ++ x :: done ++ y :: todo)
      with ((pre ++ x :: done) ++ y :: todo) by (by rewrite <- app_assoc).
    by apply list_lookup_middle. }
  rewrite Hy. simpl.
  destruct (Time_gt _ _); [|done].
  f_equal. rewrite insert_middle.
  replace (pre ++ y :: done ++ y :: todo)
    with ((pre ++ y :: done) ++ y :: todo) by (by rewrite <- app_assoc).
  replace (length pre + 1 + length done) with (length (pre ++ y :: done))
    by (rewrite length_app; simpl; lia).
  rewrite insert_middle. by rewrite <- app_assoc.
Qed.

Lemma inner_loop_sift todo : ∀ pre x done,
  inner_loop (length todo) (length pre) (length pre + 1 + length done)
    (pre ++ x :: done ++ todo)
  = Some (pre ++ (sift x todo).1 :: done ++ (sift x todo).2).
Proof.
  induction todo as [|y todo IH]; intros pre x done; simpl.
  { done. }
  rewrite compare_swap_middle. simpl.
  destruct (Time_gt _ _); simpl.
  - specialize (IH pre y (done ++ [x])).
    rewrite length_app in IH. simpl in IH.
    replace (S (length pre + 1 + length done))
      with (length pre + 1 + (length done + 1)) by lia.
    rewrite <- !app_assoc in IH. simpl in IH. exact IH.
  - specialize (IH pre x (done ++ [y])).
    rewrite length_app in IH. simpl in IH.
    replace (S (length pre + 1 + length done))
      with (length pre + 1 + (length done + 1)) by lia.
    rewrite <- !app_assoc in IH. simpl in IH. exact IH.
Qed.

Lemma sift_length todo : ∀ x, length (sift x todo).2 = length todo.
Proof.
  induction todo as [|y todo IH]; intros x; simpl; [done|].
  destruct (Time_gt _ _); simpl; by rewrite IH.
Qed.

Lemma sift_perm todo : ∀ x, (sift x todo).1 :: (sift x todo).2 ≡ₚ x :: todo.
Proof.
  induction todo as [|y todo IH]; intros x; simpl; [done|].
  destruct (Time_gt _ _); simpl.
  - etrans; [apply Permutation_swap|]. by rewrite (IH y).
  - etrans; [apply Permutation_swap|]. rewrite (IH x). apply Permutation_swap.
Qed.

(** The outer loop at [i = length pre] leaves [s[:i]] alone and permutes
    [s[i:]]; no index is out of range. *)
Lemma outer_loop_perm n : ∀ pre suf,
  length suf = n →
  ∃ out, outer_loop n (length pre) (pre ++ suf) = Some (pre ++ out)
         ∧ out ≡ₚ suf.
Proof.
  induction n as [|n IH]; intros pre suf Hn.
  { destruct suf; [|done]. exists []. by simpl. }
  destruct suf as [|x todo]; [done|]. simpl in Hn.
  simpl outer_loop.
  replace (length (pre ++ x :: todo) - (length pre + 1)) with (length todo)
    by (rewrite length_app; simpl; lia).
  pose proof (inner_loop_sift todo pre x []) as Hin.
  simpl in Hin. rewrite Nat.add_0_r in Hin. rewrite Hin. simpl.
  destruct (IH (pre ++ [(sift x todo).1]) (sift x todo).2) as (out & Hout & Hp).
  { rewrite sift_length. lia. }
  rewrite length_app in Hout. simpl in Hout.
  rewrite Nat.add_1_r in Hout. rewrite <- app_assoc in Hout. simpl in Hout.
  exists ((sift x todo).1 :: out). split.
  { rewrite Hout. by rewrite <- app_assoc. }
  rewrite Hp. apply sift_perm.
Qed.

Lemma bubble_sort_perm s : ∃ out, bubble_sort s = Some out ∧ out ≡ₚ s.
Proof. exact (outer_loop_perm (length s) [] s eq_refl). Qed.

Context `{!OrderedTime R}.

Lemma not_after_trans x y z : not_after x y → not_after y z → not_after x z.
Proof. apply Time_le_trans. Qed.

Lemma gt_not_after x y :
  Time_gt (Createdtime (value x)) (Createdtime (value y)) = true → not_after y x.
Proof.
  intros Hgt. unfold not_after.
  destruct (Time_gt_total (Createdtime (value x)) (Createdtime (value y)));
    congruence.
Qed.

(** The element the inner loop leaves at [i] is not after any other of
    [s[i:]]. *)
Lemma sift_least todo : ∀ x,
  not_after (sift x todo).1 x ∧ Forall (not_after (sift x todo).1) (sift x todo).2.
Proof.
  induction todo as [|y todo IH]; intros x; simpl.
  { split; [|constructor].
    destruct (Time_gt_total (Createdtime (value x)) (Createdtime (value x))); done. }
  destruct (Time_gt _ _) eqn:Hgt; simpl.
  - destruct (IH y) as [Hy Hall]. apply gt_not_after in Hgt.
    assert (not_after (sift y todo).1 x) by eauto using not_after_trans.
    split; [done|]. by constructor.
  - destruct (IH x) as [Hx Hall].
    assert (not_after (sift x todo).1 y) by eauto using not_after_trans.
    split; [done|]. by constructor.
Qed.

Lemma outer_loop_sorted n : ∀ pre suf,
  length suf = n →
  ∃ out, outer_loop n (length pre) (pre ++ suf) = Some (pre ++ out)
         ∧ out ≡ₚ suf ∧ StronglySorted not_after out.
Proof.
  induction n as [|n IH]; intros pre suf Hn.
  { destruct suf; [|done]. exists []. simpl. repeat split; [done|constructor]. }
  destruct suf as [|x todo]; [done|]. simpl in Hn.
  simpl outer_loop.
  replace (length (pre ++ x :: todo) - (length pre + 1)) with (length todo)
    by (rewrite length_app; simpl; lia).
  pose proof (inner_loop_sift todo pre x []) as Hin.
  simpl in Hin. rewrite Nat.add_0_r in Hin. rewrite Hin. simpl.
  destruct (IH (pre ++ [(sift x todo).1]) (sift x todo).2)
    as (out & Hout & Hp & Hs).
  { rewrite sift_length. lia. }
  rewrite length_app in Hout. simpl in Hout.
  rewrite Nat.add_1_r in Hout. rewrite <- app_assoc in Hout. simpl in Hout.
  exists ((sift x todo).1 :: out). split; [|split].
  - rewrite Hout. by rewrite <- app_assoc.
  - rewrite Hp. apply sift_perm.
  - constructor; [done|]. rewrite Hp. apply sift_least.
Qed.

Lemma bubble_sort_sorted s :
  ∃ out, bubble_sort s = Some out ∧ out ≡ₚ s ∧ StronglySorted not_after out.
Proof. exact (outer_loop_sorted (length s) [] s eq_refl). Qed.

End sort.

(** ** The text written *)

Lemma string_app_nil_l (a : string) : "" +:+ a = a.
Proof. reflexivity. Qed.

Lemma string_app_cons (ch : ascii) (a b : string) :
  String ch a +:+ b = String ch (a +:+ b).
Proof. reflexivity. Qed.

Lemma string_app_assoc (a b c : string) : (a +:+ b) +:+ c = a +:+ (b +:+ c).
Proof.
  induction a as [|ch a IH]; [done|].
  by rewrite !string_app_cons, IH.
Qed.

Lemma string_app_nil_r (a : string) : a +:+ "" = a.
Proof.
  induction a as [|ch a IH]; [done|].
  by rewrite string_app_cons, IH.
Qed.

Lemma string_length_app (a b : string) :
  String.length (a +:+ b) = String.length a + String.length b.
Proof.
  induction a as [|ch a IH]; [done|].
  rewrite string_app_cons. simpl. by rewrite IH.
Qed.

Lemma joins_app (l1 l2 : list string) : joins (l1 ++ l2) = joins l1 +:+ joins l2.
Proof.
  induction l1 as [|a l1 IH]; simpl; [done|].
  by rewrite IH, string_app_assoc.
Qed.

Lemma concat_cons (sep a : string) (l : list string) :
  String.concat sep (a :: l) = a +:+ joins (String.app sep <$> l).
Proof.
  revert a. induction l as [|b l IH]; intros a.
  { simpl. by rewrite string_app_nil_r. }
  change (String.concat sep (a :: b :: l))
    with (a +:+ sep +:+ String.concat sep (b :: l)).
  change (joins (String.app sep <$> b :: l))
    with ((sep +:+ b) +:+ joins (String.app sep <$> l)).
  by rewrite IH, string_app_assoc.
Qed.

Lemma line_feeds_app (a b : string) :
  line_feeds (a +:+ b) = line_feeds a + line_feeds b.
Proof.
  induction a as [|c a IH]; [done|].
  rewrite string_app_cons. simpl. rewrite IH. lia.
Qed.

Lemma line_feeds_joins (l : list string) :
  Forall (λ a, line_feeds a = 0) l → line_feeds (joins l) = 0.
Proof.
  induction 1 as [|a l Ha _ IH]; [done|].
  change (joins (a :: l)) with (a +:+ joins l).
  rewrite line_feeds_app. lia.
Qed.

Section text.
Context {R : Type} `{Shape R}.

(** A row whose identifier and field texts hold no line feed is one line. *)
Lemma row_text_one_line (v : keyvalue R) :
  line_feeds (key v) = 0 →
  (∀ i, line_feeds (FieldText (value v) i) = 0) →
  line_feeds (row_text v) = 1.
Proof.
  intros Hk Hf. unfold row_text.
  rewrite concat_cons, !line_feeds_app, Hk, line_feeds_joins; [done|].
  apply Forall_fmap, Forall_fmap, Forall_forall. intros i _. simpl.
  by rewrite line_feeds_app, Hf.
Qed.

Lemma header_loop_text n : ∀ i header,
  header_loop n i header
  = header +:+ joins (String.app "," <$> (column <$> seq i n)).
Proof.
  induction n as [|n IH]; intros i header; simpl.
  { by rewrite string_app_nil_r. }
  rewrite IH. unfold Sprintf_header, column.
  by rewrite !string_app_assoc.
Qed.

Lemma gen_header_text : gen_header = header_text.
Proof. unfold gen_header, header_text. by rewrite header_loop_text, concat_cons. Qed.

Lemma fields_loop_text n : ∀ i v csvBuffer,
  fields_loop n i v csvBuffer
  = csvBuffer +:+ joins (String.app "," <$> (FieldText v <$> seq i n)).
Proof.
  induction n as [|n IH]; intros i v csvBuffer; simpl.
  { by rewrite string_app_nil_r. }
  rewrite IH. by rewrite !string_app_assoc.
Qed.

Lemma write_row_text csvBuffer v : write_row csvBuffer v = csvBuffer +:+ row_text v.
Proof.
  unfold write_row, row_text.
  by rewrite fields_loop_text, concat_cons, !string_app_assoc.
Qed.

Lemma rows_loop_text s : ∀ csvBuffer,
  rows_loop s csvBuffer = csvBuffer +:+ joins (row_text <$> s).
Proof.
  unfold rows_loop.
  induction s as [|v s IH]; intros csvBuffer; simpl.
  { by rewrite string_app_nil_r. }
  by rewrite IH, write_row_text, string_app_assoc.
Qed.

Lemma snapshot_fmap (order : list (string * R)) :
  snapshot order = of_entry <$> order.
Proof.
  unfold snapshot.
  enough (Hgen : ∀ acc : list (keyvalue R),
             foldl (λ s kv, s ++ [KeyValue kv.1 kv.2]) acc order
             = acc ++ (of_entry <$> order))
    by apply (Hgen []).
  induction order as [|kv order IH]; intros acc; simpl.
  { by rewrite app_nil_r. }
  by rewrite IH, <- app_assoc.
Qed.

Lemma snapshot_entries (nodeclaimmap : gmap string R) order :
  range_of nodeclaimmap order → snapshot order ≡ₚ entries nodeclaimmap.
Proof. intros Hr. rewrite snapshot_fmap. unfold entries. by rewrite Hr. Qed.

Lemma range_of_length (nodeclaimmap : gmap string R) order :
  range_of nodeclaimmap order → length order = size nodeclaimmap.
Proof. intros Hr. rewrite Hr. apply length_map_to_list. Qed.

(** The serialisation in one equation: the header line, then the rows of
    the sorted snapshot; in the empty case there are no rows. *)
Lemma convertToCSV_text (nodeclaimmap : gmap string R) order :
  range_of nodeclaimmap order →
  ∃ rows, bubble_sort (snapshot order) = Some rows
          ∧ rows ≡ₚ entries nodeclaimmap
          ∧ convertToCSV nodeclaimmap order
            = Some (header_text +:+ LF +:+ joins (row_text <$> rows)).
Proof.
  intros Hr.
  destruct (bubble_sort_perm (snapshot order)) as (rows & Hsort & Hperm).
  exists rows. split; [done|]. split.
  { rewrite Hperm. by apply snapshot_entries. }
  unfold convertToCSV. rewrite gen_header_text. simpl.
  destruct (Nat.eqb_spec (size nodeclaimmap) 0) as [Hz|Hnz].
  - assert (order = []) as ->.
    { apply length_zero_iff_nil. by rewrite (range_of_length _ _ Hr). }
    cbv in Hsort. injection Hsort as <-. simpl.
    by rewrite string_app_assoc.
  - rewrite Hsort. simpl. by rewrite rows_loop_text, string_app_assoc.
Qed.

End text.

(** ** Order of the rows *)

Section order.
Context {R : Type} `{OrderedTime R}.

(** With a total order on [Createdtime], the rows written are the entries of
    the map, not one after a later one. *)
Lemma convertToCSV_sorted (nodeclaimmap : gmap string R) order :
  range_of nodeclaimmap order →
  ∃ rows, rows ≡ₚ entries nodeclaimmap
          ∧ StronglySorted not_after rows
          ∧ convertToCSV nodeclaimmap order
            = Some (header_text +:+ LF +:+ joins (row_text <$> rows)).
Proof.
  intros Hr.
  destruct (convertToCSV_text nodeclaimmap order Hr) as (rows & Hsort & Hperm & Hout).
  destruct (bubble_sort_sorted (snapshot order)) as (rows' & Hsort' & _ & Hsorted).
  assert (rows' = rows) as -> by congruence.
  by exists rows.
Qed.

Lemma elem_of_entries (nodeclaimmap : gmap string R) (x : keyvalue R) :
  x ∈ entries nodeclaimmap → nodeclaimmap !! key x = Some (value x).
Proof.
  unfold entries. intros Hx.
  apply list_elem_of_fmap in Hx as ([k v] & -> & Hkv).
  by apply elem_of_map_to_list in Hkv.
Qed.

Context `{!AntisymTime R}.

Lemma entries_not_after_antisym (nodeclaimmap : gmap string R) (x y : keyvalue R) :
  distinct_Createdtime nodeclaimmap →
  x ∈ entries nodeclaimmap → y ∈ entries nodeclaimmap →
  not_after x y → not_after y x → x = y.
Proof.
  intros Hd Hx%elem_of_entries Hy%elem_of_entries Hxy Hyx.
  pose proof (Time_le_antisym _ _ Hxy Hyx) as Ht.
  pose proof (Hd _ _ _ _ Hx Hy Ht) as Hk.
  destruct x as [kx vx], y as [ky vy]. simpl in *. subst ky.
  congruence.
Qed.

Lemma sorted_rows_unique (nodeclaimmap : gmap string R) (rows1 rows2 : list (keyvalue R)) :
  distinct_Createdtime nodeclaimmap →
  rows1 ≡ₚ entries nodeclaimmap → rows2 ≡ₚ entries nodeclaimmap →
  StronglySorted not_after rows1 → StronglySorted not_after rows2 →
  rows1 = rows2.
Proof.
  intros Hd Hp1 Hp2 Hs1 Hs2.
  apply (StronglySorted_unique_strong not_after); [|done|done|by rewrite Hp1, Hp2].
  intros x1 x2 Hx1 Hx2. rewrite Hp1 in Hx1. rewrite Hp2 in Hx2.
  by apply (entries_not_after_antisym nodeclaimmap).
Qed.

End order.

(** ** The shape with two fields *)

#[global] Instance TwoFields_ordered : OrderedTime TwoFields.Nodeclaimstruct.
Proof.
  split; simpl; intros *; rewrite ?Z.gtb_ltb, ?Z.ltb_ge; lia.
Qed.

#[global] Instance TwoFields_antisym : AntisymTime TwoFields.Nodeclaimstruct.
Proof.
  intros a b. simpl. rewrite !Z.gtb_ltb, !Z.ltb_ge. lia.
Qed.

Lemma NoDup_keys_cab : NoDup (TwoFields.order_cab.*1).
Proof. apply (bool_decide_unpack _). by vm_compute. Qed.

Lemma range_of_list_to_map {R : Type} (order order' : list (string * R)) :
  NoDup (order.*1) → order' ≡ₚ order → range_of (list_to_map order) order'.
Proof.
  intros Hnd Hp. unfold range_of. rewrite Hp.
  symmetry. by apply map_to_list_to_map.
Qed.

Lemma range_cab : range_of TwoFields.nodeclaims TwoFields.order_cab.
Proof. by apply range_of_list_to_map; [apply NoDup_keys_cab|]. Qed.

Lemma range_bca : range_of TwoFields.nodeclaims TwoFields.order_bca.
Proof.
  apply range_of_list_to_map; [apply NoDup_keys_cab|].
  unfold TwoFields.order_bca, TwoFields.order_cab.
  apply (Permutation_cons_append [_; _]).
Qed.

Lemma distinct_nodeclaims : distinct_Createdtime TwoFields.nodeclaims.
Proof.
  intros k1 k2 v1 v2 H1 H2.
  apply (elem_of_list_to_map_2 TwoFields.order_cab) in H1, H2.
  unfold TwoFields.order_cab in H1, H2.
  rewrite !elem_of_cons, elem_of_nil in H1, H2.
  destruct H1 as [H1|[H1|[H1|[]]]], H2 as [H2|[H2|[H2|[]]]];
    injection H1 as -> ->; injection H2 as -> ->; simpl; done.
Qed.

(** ** The serialisation: header, rows, order *)

(** The serialisation of the three records, whichever of the two orders the
    [range] takes: the rows come out as a (10), b (20), c (30). *)
Example convertToCSV_cab :
  convertToCSV TwoFields.nodeclaims TwoFields.order_cab
  = Some ("Nodeclaim[1],Name[2],Createdtime[3]" +:+ LF
          +:+ "a,node-a,10" +:+ LF +:+ "b,node-b,20" +:+ LF
          +:+ "c,node-c,30" +:+ LF).
Proof. by vm_compute. Qed.

Example convertToCSV_bca :
  convertToCSV TwoFields.nodeclaims TwoFields.order_bca
  = convertToCSV TwoFields.nodeclaims TwoFields.order_cab.
Proof. by vm_compute. Qed.

(** A comma inside a field value is written as it is, without quotes. *)
Example convertToCSV_comma :
  convertToCSV TwoFields.twins TwoFields.order_xy
  = Some ("Nodeclaim[1],Name[2],Createdtime[3]" +:+ LF
          +:+ "x,one,two,7" +:+ LF +:+ "y,three,7" +:+ LF).
Proof. by vm_compute. Qed.

(** Two records created at the same time come out in the order the [range]
    yielded them: the test of the sort is strict, so the two are not
    swapped. *)
Example convertToCSV_ties :
  convertToCSV TwoFields.twins TwoFields.order_yx
  = Some ("Nodeclaim[1],Name[2],Createdtime[3]" +:+ LF
          +:+ "y,three,7" +:+ LF +:+ "x,one,two,7" +:+ LF).
Proof. by vm_compute. Qed.

(** C1. For a non-empty map, whatever order the [range] over it takes,
    [convertToCSV] returns the header line followed by the rows of a list
    [rows] that holds each entry of the map once and is ascending by
    [Createdtime]: no row has a [Createdtime] above that of a later row. The
    type of [Createdtime] is one that [>] orders ([OrderedTime]). *)
Theorem convertToCSV_rows_ascending :
  ∀ (R : Type) (shape : Shape R) (ord : OrderedTime R)
    (nodeclaimmap : gmap string R) (order : list (string * R)),
    nodeclaimmap ≠ ∅ →
    range_of nodeclaimmap order →
    ∃ rows : list (keyvalue R),
      convertToCSV nodeclaimmap order
      = Some (gen_header +:+ LF +:+ joins (row_text <$> rows))
      ∧ rows ≡ₚ entries nodeclaimmap
      ∧ StronglySorted not_after rows.
Proof.
  intros R shape ord nodeclaimmap order _ Hr.
  destruct (convertToCSV_sorted nodeclaimmap order Hr) as (rows & Hp & Hs & Hout).
  exists rows. by rewrite gen_header_text.
Qed.

Lemma nodeclaims_non_empty : TwoFields.nodeclaims ≠ ∅.
Proof.
  intros Heq. apply (f_equal (lookup "a")) in Heq.
  by vm_compute in Heq.
Qed.

Lemma convertToCSV_rows_ascending_witness :
  ∃ rows : list (keyvalue TwoFields.Nodeclaimstruct),
    convertToCSV TwoFields.nodeclaims TwoFields.order_bca
    = Some (gen_header +:+ LF +:+ joins (row_text <$> rows))
    ∧ rows ≡ₚ entries TwoFields.nodeclaims
    ∧ StronglySorted not_after rows.
Proof.
  exact (convertToCSV_rows_ascending _ _ _ _ _ nodeclaims_non_empty range_bca).
Defined.

(** C3. For the empty map [convertToCSV] returns the header line and one line
    feed, and nothing else. *)
Theorem convertToCSV_empty :
  ∀ (R : Type) (shape : Shape R) (order : list (string * R)),
    convertToCSV (∅ : gmap string R) order = Some (gen_header +:+ LF).
Proof.
  intros R shape order. unfold convertToCSV.
  by rewrite map_size_empty.
Qed.

(** C4. For every record shape the header is the label ["Nodeclaim[1]"]
    followed by one column ["<FieldName>[<position>]"] per field, in the order
    of the fields, the positions counting from 2, with commas in between; it
    is the first line of what [convertToCSV] returns; and for the shape with
    the fields [Name] and [Createdtime] it is
    ["Nodeclaim[1],Name[2],Createdtime[3]"]. *)
Theorem gen_header_columns :
  (∀ (R : Type) (shape : Shape R),
     gen_header
     = String.concat ","
         ("Nodeclaim[1]"
          :: ((λ i, FieldName i +:+ "[" +:+ itoa (i + 2) +:+ "]") <$> seq 0 NumField))
     ∧ ∀ (nodeclaimmap : gmap string R) (order : list (string * R)),
         ∃ rest, convertToCSV nodeclaimmap order = Some (gen_header +:+ LF +:+ rest))
  ∧ @gen_header TwoFields.Nodeclaimstruct _ = "Nodeclaim[1],Name[2],Createdtime[3]"
  ∧ itoa <$> seq 2 3 = ["2"; "3"; "4"].
Proof.
  split; [|by vm_compute].
  intros R shape. split; [apply gen_header_text|].
  intros nodeclaimmap order. unfold convertToCSV.
  destruct (bubble_sort_perm (snapshot order)) as (rows & -> & _).
  rewrite string_app_nil_l. simpl.
  destruct (Nat.eqb (size nodeclaimmap) 0).
  - exists "". by rewrite string_app_nil_r.
  - exists (joins (row_text <$> rows)).
    by rewrite rows_loop_text, string_app_assoc.
Qed.

(** C5. [convertToCSV] writes, after the header line, one row per entry of
    the map, in the order the sort leaves them: the identifier and then the
    text of each field in the order of the fields, with commas in between and
    a line feed at the end ([row_text]); the texts are written as they are,
    so a row is one line when they hold no line feed; nothing follows the
    last row. *)
Theorem convertToCSV_one_line_per_entry :
  ∀ (R : Type) (shape : Shape R)
    (nodeclaimmap : gmap string R) (order : list (string * R)),
    range_of nodeclaimmap order →
    ∃ rows : list (keyvalue R),
      bubble_sort (snapshot order) = Some rows
      ∧ rows ≡ₚ entries nodeclaimmap
      ∧ length rows = size nodeclaimmap
      ∧ convertToCSV nodeclaimmap order
        = Some (gen_header +:+ LF +:+ joins (row_text <$> rows))
      ∧ ∀ v : keyvalue R,
          row_text v
          = key v +:+ joins ((λ i, "," +:+ FieldText (value v) i) <$> seq 0 NumField)
            +:+ LF
          ∧ (line_feeds (key v) = 0 →
             (∀ i, line_feeds (FieldText (value v) i) = 0) →
             line_feeds (row_text v) = 1).
Proof.
  intros R shape nodeclaimmap order Hr.
  destruct (convertToCSV_text nodeclaimmap order Hr) as (rows & Hsort & Hp & Hout).
  exists rows. split; [done|]. split; [done|]. split; [|split].
  - rewrite Hp. unfold entries.
    by rewrite length_fmap, length_map_to_list.
  - by rewrite gen_header_text.
  - intros v. split; [|apply row_text_one_line].
    unfold row_text.
    by rewrite concat_cons, <- list_fmap_compose, string_app_assoc.
Qed.

Lemma NoDup_keys_xy : NoDup (TwoFields.order_xy.*1).
Proof. apply (bool_decide_unpack _). by vm_compute. Qed.

Lemma range_yx : range_of TwoFields.twins TwoFields.order_yx.
Proof.
  apply range_of_list_to_map; [apply NoDup_keys_xy|].
  apply Permutation_swap.
Qed.

Lemma convertToCSV_one_line_per_entry_witness :
  ∃ rows : list (keyvalue TwoFields.Nodeclaimstruct),
    bubble_sort (snapshot TwoFields.order_yx) = Some rows
    ∧ rows ≡ₚ entries TwoFields.twins
    ∧ length rows = size TwoFields.twins
    ∧ convertToCSV TwoFields.twins TwoFields.order_yx
      = Some (gen_header +:+ LF +:+ joins (row_text <$> rows))
    ∧ ∀ v : keyvalue TwoFields.Nodeclaimstruct,
        row_text v
        = key v +:+ joins ((λ i, "," +:+ FieldText (value v) i) <$> seq 0 NumField)
          +:+ LF
        ∧ (line_feeds (key v) = 0 →
           (∀ i, line_feeds (FieldText (value v) i) = 0) →
           line_feeds (row_text v) = 1).
Proof.
  exact (convertToCSV_one_line_per_entry _ _ _ _ range_yx).
Defined.

(** C10. When no two records of the map have the same [Createdtime], two runs
    of [convertToCSV] on the map return the same text, whatever orders their
    [range]s take. The type of [Createdtime] is one that [>] orders, with no
    two values at the same place ([OrderedTime], [AntisymTime]). *)
Theorem convertToCSV_deterministic :
  ∀ (R : Type) (shape : Shape R) (ord : OrderedTime R) (anti : AntisymTime R)
    (nodeclaimmap : gmap string R) (order1 order2 : list (string * R)),
    distinct_Createdtime nodeclaimmap →
    range_of nodeclaimmap order1 →
    range_of nodeclaimmap order2 →
    ∃ out : string,
      convertToCSV nodeclaimmap order1 = Some out
      ∧ convertToCSV nodeclaimmap order2 = Some out.
Proof.
  intros R shape ord anti nodeclaimmap order1 order2 Hd Hr1 Hr2.
  destruct (convertToCSV_sorted nodeclaimmap order1 Hr1) as (rows1 & Hp1 & Hs1 & Hout1).
  destruct (convertToCSV_sorted nodeclaimmap order2 Hr2) as (rows2 & Hp2 & Hs2 & Hout2).
  assert (rows1 = rows2) as -> by eauto using sorted_rows_unique.
  eauto.
Qed.

Lemma convertToCSV_deterministic_witness :
  ∃ out : string,
    convertToCSV TwoFields.nodeclaims TwoFields.order_cab = Some out
    ∧ convertToCSV TwoFields.nodeclaims TwoFields.order_bca = Some out.
Proof.
  exact (convertToCSV_deterministic _ _ _ _ _ _ _ distinct_nodeclaims range_cab range_bca).
Defined.

(** ** Strings: suffixes *)

Lemma substring_all (s : string) : String.substring 0 (String.length s) s = s.
Proof. induction s as [|c s IH]; simpl; [done|]. by rewrite IH. Qed.

Lemma substring_split (s : string) : ∀ n,
  (n ≤ String.length s)%nat →
  s = String.substring 0 n s +:+ String.substring n (String.length s - n) s.
Proof.
  induction s as [|c s IH]; intros n Hn; simpl in *.
  { by destruct n. }
  destruct n as [|n]; simpl.
  - by rewrite string_app_nil_l, substring_all.
  - rewrite string_app_cons. f_equal. apply IH. lia.
Qed.

Lemma substring_app_l (a b : string) :
  String.substring 0 (String.length a) (a +:+ b) = a.
Proof.
  induction a as [|c a IH].
  { rewrite string_app_nil_l. by destruct b. }
  rewrite string_app_cons. simpl. by rewrite IH.
Qed.

Lemma substring_app_r (a b : string) :
  String.substring (String.length a) (String.length b) (a +:+ b) = b.
Proof.
  induction a as [|c a IH].
  { rewrite string_app_nil_l. apply substring_all. }
  rewrite string_app_cons. simpl. apply IH.
Qed.

Lemma HasSuffix_app (a suffix : string) : HasSuffix (a +:+ suffix) suffix = true.
Proof.
  unfold HasSuffix. rewrite string_length_app.
  replace (String.length a + String.length suffix - String.length suffix)
    with (String.length a) by lia.
  rewrite substring_app_r, bool_decide_eq_true_2 by done.
  rewrite andb_true_r. apply Nat.leb_le. lia.
Qed.

Lemma HasSuffix_inv (s suffix : string) :
  HasSuffix s suffix = true →
  s = String.substring 0 (String.length s - String.length suffix) s +:+ suffix.
Proof.
  unfold HasSuffix. intros [Hlen Hsub%bool_decide_eq_true_1]%andb_true_iff.
  apply Nat.leb_le in Hlen.
  pose proof (substring_split s (String.length s - String.length suffix)) as Hsplit.
  replace (String.length s - (String.length s - String.length suffix))
    with (String.length suffix) in Hsplit by lia.
  rewrite Hsub in Hsplit. apply Hsplit. lia.
Qed.

Lemma TrimSuffix_app (a suffix : string) : TrimSuffix (a +:+ suffix) suffix = a.
Proof.
  unfold TrimSuffix. rewrite HasSuffix_app, string_length_app.
  replace (String.length a + String.length suffix - String.length suffix)
    with (String.length a) by lia.
  apply substring_app_l.
Qed.

Lemma TrimSuffix_other (s suffix : string) :
  (∀ a, s ≠ a +:+ suffix) → TrimSuffix s suffix = s.
Proof.
  intros Hno. unfold TrimSuffix.
  destruct (HasSuffix s suffix) eqn:Hs; [|done].
  apply HasSuffix_inv in Hs. by destruct (Hno _ Hs).
Qed.

(** ** The object key *)

Lemma appendInt_two (x : Z) : (0 ≤ x < 100)%Z → appendInt x 2 = two_digits x.
Proof.
  intros Hx. unfold appendInt.
  replace (x <? 0)%Z with false by (symmetry; apply Z.ltb_ge; lia).
  rewrite Z.abs_eq by lia.
  replace (x <? 100)%Z with true by (symmetry; apply Z.ltb_lt; lia).
  done.
Qed.

Lemma appendInt_four (x : Z) : (0 ≤ x < 10000)%Z → appendInt x 4 = four_digits x.
Proof.
  intros Hx. unfold appendInt.
  replace (x <? 0)%Z with false by (symmetry; apply Z.ltb_ge; lia).
  rewrite Z.abs_eq by lia.
  replace (x <? 10000)%Z with true by (symmetry; apply Z.ltb_lt; lia).
  done.
Qed.

Lemma Format_layout (t : instant) :
  Format t "2006-01-02-15-04-05"
  = String.concat "-"
      [appendInt (Year t) 4; appendInt (Month t) 2; appendInt (Day t) 2;
       appendInt (Hour t) 2; appendInt (Minute t) 2; appendInt (Second t) 2].
Proof.
  rewrite <- (string_app_nil_r (appendInt (Second t) 2)).
  reflexivity.
Qed.

Lemma Format_stamp (t : instant) :
  in_calendar t → Format t "2006-01-02-15-04-05" = stamp t.
Proof.
  intros (HY & HM & HD & Hh & Hm & Hs).
  rewrite Format_layout. unfold stamp.
  by rewrite appendInt_four, !appendInt_two by lia.
Qed.

Lemma stamp_length (t : instant) : String.length (stamp t) = 19.
Proof. reflexivity. Qed.

(** ** Runs of UploadToS3 *)

(** Either kind of error keeps its cause and shows it after its own text, and
    no error is of both kinds. *)
Lemma ConfigurationError_wraps (err cause : error) :
  ConfigurationError err cause →
  Unwrap err = Some cause
  ∧ Error err = "unable to load AWS SDK config: " +:+ Error cause.
Proof. by intros ->. Qed.

Lemma UploadError_wraps (err cause : error) :
  UploadError err cause →
  Unwrap err = Some cause ∧ Error err = "failed to upload to S3: " +:+ Error cause.
Proof. by intros ->. Qed.

Lemma ConfigurationError_not_UploadError (err cause cause' : error) :
  ConfigurationError err cause → ¬ UploadError err cause'.
Proof.
  unfold ConfigurationError, UploadError, Errorf_w. intros -> Heq.
  discriminate Heq.
Qed.

Lemma new_events_after (w : world) (evs : list event) :
  new_events w (after w evs) = evs.
Proof. unfold new_events, after. simpl. apply drop_app_length. Qed.

Lemma after_nil (w : world) : after w [] = w.
Proof. destruct w. unfold after. simpl. by rewrite app_nil_r. Qed.

Section runs.
Context `{Host} {R : Type} `{Shape R}.

(** The five ways a run of [UploadToS3] goes. *)
Lemma UploadToS3_run (ctx : Context_) (nodeclaimmap : gmap string R)
    (order : list (string * R)) (w : world) :
  UploadToS3 ctx nodeclaimmap order w =
    let g := globals w in
    if s3Enabled g then
      match LoadDefaultConfig ctx (s3Region g) with
      | inr cause =>
          (after w [call_LoadDefaultConfig (s3Region g)],
           Return (Some (Errorf_w "unable to load AWS SDK config: " cause)))
      | inl cfg =>
          match convertToCSV nodeclaimmap order with
          | None =>
              (after w [call_LoadDefaultConfig (s3Region g); call_NewFromConfig;
                        call_convertToCSV],
               Panic)
          | Some csvData =>
              match PutObject (NewFromConfig cfg) ctx (upload_input g csvData) with
              | Some cause =>
                  (after w [call_LoadDefaultConfig (s3Region g); call_NewFromConfig;
                            call_convertToCSV; call_Now;
                            call_PutObject (upload_input g csvData)],
                   Return (Some (Errorf_w "failed to upload to S3: " cause)))
              | None =>
                  (after w [call_LoadDefaultConfig (s3Region g); call_NewFromConfig;
                            call_convertToCSV; call_Now;
                            call_PutObject (upload_input g csvData);
                            write_Stderr (success_notice g)],
                   Return None)
              end
          end
      end
    else (w, Return None).
Proof.
  destruct w as [g tr]. unfold UploadToS3, upload_input, success_notice, after.
  cbn [globals trace].
  unfold mbind, Eff_bind, read_globals, mret, Eff_ret, emit. cbn [fst snd globals trace].
  destruct (s3Enabled g); cbn [negb]; [|done].
  destruct (LoadDefaultConfig ctx (s3Region g)) as [cfg|cause]; cbn [fst snd globals trace]; [|done].
  destruct (convertToCSV nodeclaimmap order) as [csvData|]; cbn [fst snd globals trace].
  - destruct (PutObject _ _ _); cbn [fst snd globals trace];
      by rewrite <- !app_assoc.
  - by rewrite <- !app_assoc.
Qed.

(** [convertToCSV] never panics: no index of the sort is out of range. *)
Lemma convertToCSV_returns (nodeclaimmap : gmap string R) (order : list (string * R)) :
  ∃ csvData, convertToCSV nodeclaimmap order = Some csvData.
Proof.
  unfold convertToCSV.
  destruct (bubble_sort_perm (snapshot order)) as (rows & -> & _). simpl.
  destruct (Nat.eqb _ _); eauto.
Qed.

(** So [UploadToS3] returns: with [nil] or with an error. *)
Lemma UploadToS3_returns (ctx : Context_) (nodeclaimmap : gmap string R)
    (order : list (string * R)) (w : world) :
  ∃ err, (UploadToS3 ctx nodeclaimmap order w).2 = Return err.
Proof.
  rewrite UploadToS3_run. simpl.
  destruct (convertToCSV_returns nodeclaimmap order) as [csvData ->].
  repeat (case_match; simpl; eauto).
Qed.

(** A run leaves the package variables alone. *)
Lemma UploadToS3_globals (ctx : Context_) (nodeclaimmap : gmap string R)
    (order : list (string * R)) (w : world) :
  globals (UploadToS3 ctx nodeclaimmap order w).1 = globals w.
Proof.
  rewrite UploadToS3_run. simpl.
  repeat (case_match; simpl; try done).
Qed.

(** The events of a run. *)
Lemma UploadToS3_new_events (ctx : Context_) (nodeclaimmap : gmap string R)
    (order : list (string * R)) (w : world) :
  new_events w (UploadToS3 ctx nodeclaimmap order w).1 =
    let g := globals w in
    if s3Enabled g then
      match LoadDefaultConfig ctx (s3Region g) with
      | inr cause => [call_LoadDefaultConfig (s3Region g)]
      | inl cfg =>
          match convertToCSV nodeclaimmap order with
          | None =>
              [call_LoadDefaultConfig (s3Region g); call_NewFromConfig;
               call_convertToCSV]
          | Some csvData =>
              match PutObject (NewFromConfig cfg) ctx (upload_input g csvData) with
              | Some cause =>
                  [call_LoadDefaultConfig (s3Region g); call_NewFromConfig;
                   call_convertToCSV; call_Now;
                   call_PutObject (upload_input g csvData)]
              | None =>
                  [call_LoadDefaultConfig (s3Region g); call_NewFromConfig;
                   call_convertToCSV; call_Now;
                   call_PutObject (upload_input g csvData);
                   write_Stderr (success_notice g)]
              end
          end
      end
    else [].
Proof.
  rewrite UploadToS3_run. simpl.
  repeat case_match; simpl; rewrite ?new_events_after; try done.
  rewrite <- (after_nil w) at 2. apply new_events_after.
Qed.

End runs.

(** No call writes the package variables, so they stay as [init] left them. *)
Lemma call_globals (w w' : world) : call w w' → globals w' = globals w.
Proof.
  destruct 1 as [w|w|host R shape ctx nodeclaimmap order w]; [done|done|].
  apply UploadToS3_globals.
Qed.

Lemma calls_globals (w w' : world) : rtc call w w' → globals w' = globals w.
Proof.
  induction 1 as [w|w w1 w2 Hc _ IH]; [done|].
  rewrite IH. by apply call_globals.
Qed.

(** ** The configuration gate and the upload *)

(** A run with the stub host, enabled for the bucket ["archive"] and the prefix
    ["logs/"], at 2024-01-02T03:04:05, when the write succeeds: one
    [PutObject] under the key of that second, then the notice. *)
Example UploadToS3_success :
  let host := Stub.host (inl ()) None Stub.clock in
  let r := UploadToS3 () TwoFields.nodeclaims TwoFields.order_cab Stub.enabled in
  r.2 = Return None
  ∧ Key <$> puts (new_events Stub.enabled r.1)
    = ["logs/karpenter-nodeclaims-2024-01-02-03-04-05.csv"]
  ∧ notices (new_events Stub.enabled r.1)
    = ["Successfully uploaded to s3://archive/logs/karpenter-nodeclaims-2024-01-02-03-04-05.csv"
       +:+ LF].
Proof. by vm_compute. Qed.

(** C2. When [IsEnabled()] is false, [UploadToS3] returns [nil] and the state
    after the call is the state before it: no event at all, so no call of
    [convertToCSV], of the SDK or of [PutObject]. *)
Theorem UploadToS3_disabled :
  ∀ (host : Host) (R : Type) (shape : Shape R) (ctx : Context_)
    (nodeclaimmap : gmap string R) (order : list (string * R)) (w : world),
    (IsEnabled w).2 = false →
    UploadToS3 ctx nodeclaimmap order w = (w, Return None)
    ∧ new_events w (UploadToS3 ctx nodeclaimmap order w).1 = [].
Proof.
  intros host R shape ctx nodeclaimmap order w Hoff.
  change (s3Enabled (globals w) = false) in Hoff.
  rewrite UploadToS3_new_events, UploadToS3_run. simpl. by rewrite Hoff.
Qed.

Lemma UploadToS3_disabled_witness :
  let host := Stub.host (inl ()) None Stub.clock in
  UploadToS3 () TwoFields.nodeclaims TwoFields.order_cab Stub.disabled
  = (Stub.disabled, Return None)
  ∧ new_events Stub.disabled
      (UploadToS3 () TwoFields.nodeclaims TwoFields.order_cab Stub.disabled).1 = [].
Proof.
  exact (UploadToS3_disabled (Stub.host (inl ()) None Stub.clock) _ _ ()
           TwoFields.nodeclaims TwoFields.order_cab Stub.disabled eq_refl).
Defined.

(** [TrimSuffix] takes one trailing slash off, and only one. *)
Example TrimSuffix_once :
  TrimSuffix "logs/" "/" = "logs" ∧ TrimSuffix "logs//" "/" = "logs/"
  ∧ TrimSuffix "logs" "/" = "logs" ∧ TrimSuffix "/" "/" = "".
Proof. by vm_compute. Qed.

Example in_calendar_clock : in_calendar Stub.clock.
Proof. unfold in_calendar. simpl. lia. Qed.

(** Outside the years 0 to 9999 the year takes more than four bytes. *)
Example appendInt_wide :
  appendInt 12024 4 = "12024" ∧ appendInt (-44) 4 = "-0044" ∧ appendInt 7 2 = "07".
Proof. by vm_compute. Qed.

(** C6. The key [UploadToS3] builds is the prefix without one trailing slash,
    then ["/karpenter-nodeclaims-"], the time as Go formats it for the layout
    ["2006-01-02-15-04-05"] (year, month, day, hour, minute and second, joined
    by ["-"]), and [".csv"]; this is the key of every [PutObject] of a run.
    For an instant a calendar shows, the time is the nineteen bytes
    [YYYY-MM-DD-HH-MM-SS]. The prefix ["logs/"] at 2024-01-02T03:04:05 gives
    ["logs/karpenter-nodeclaims-2024-01-02-03-04-05.csv"]. *)
Theorem object_key_format :
  ∀ (host : Host) (R : Type) (shape : Shape R) (ctx : Context_)
    (nodeclaimmap : gmap string R) (order : list (string * R)) (w : world)
    (prefix : string) (t : instant),
    Sprintf_key prefix (Format t "2006-01-02-15-04-05")
    = TrimSuffix prefix "/" +:+ "/karpenter-nodeclaims-"
      +:+ String.concat "-"
            [appendInt (Year t) 4; appendInt (Month t) 2; appendInt (Day t) 2;
             appendInt (Hour t) 2; appendInt (Minute t) 2; appendInt (Second t) 2]
      +:+ ".csv"
    ∧ (∀ p, prefix = p +:+ "/" → TrimSuffix prefix "/" = p)
    ∧ ((∀ p, prefix ≠ p +:+ "/") → TrimSuffix prefix "/" = prefix)
    ∧ (in_calendar t →
       Format t "2006-01-02-15-04-05" = stamp t ∧ String.length (stamp t) = 19)
    ∧ (∀ input,
         input ∈ puts (new_events w (UploadToS3 ctx nodeclaimmap order w).1) →
         Key input
         = Sprintf_key (s3Prefix (globals w)) (Format Now "2006-01-02-15-04-05"))
    ∧ Sprintf_key "logs/" (Format Stub.clock "2006-01-02-15-04-05")
      = "logs/karpenter-nodeclaims-2024-01-02-03-04-05.csv".
Proof.
  intros host R shape ctx nodeclaimmap order w prefix t.
  split; [|split; [|split; [|split; [|split]]]].
  - unfold Sprintf_key. by rewrite Format_layout.
  - intros p ->. apply TrimSuffix_app.
  - apply TrimSuffix_other.
  - intros Hc. split; [by apply Format_stamp|apply stamp_length].
  - intros input. rewrite UploadToS3_new_events. simpl.
    repeat case_match; simpl; rewrite ?elem_of_cons, ?elem_of_nil;
      intros Hin; try done; by destruct Hin as [->|[]].
  - by vm_compute.
Qed.

(** [init] with the bucket ["archive"], the prefix ["logs/"] and no region,
    and with nothing set. *)
Example init_enabled :
  Stub.enabled
  = {| globals := {| s3Bucket := "archive"; s3Prefix := "logs/";
                     s3Region := "us-east-1"; s3Enabled := true |};
       trace := [write_Stderr
                   ("S3 upload enabled: bucket=archive, prefix=logs/, region=us-east-1"
                    +:+ LF)] |}.
Proof. by vm_compute. Qed.

Example init_disabled : Stub.disabled = world0.
Proof. by vm_compute. Qed.

(** C7. After [init], [s3Enabled] is true exactly when [s3Bucket] is not
    empty; the bucket is the one read; when enabled, the prefix and the region
    are the ones read, or ["karpenter-logs"] and ["us-east-1"] in place of an
    empty one, and neither is empty, and one line naming the three is written
    to [os.Stderr]; when not enabled they are as read and nothing is written.
    [IsEnabled] and [GetConfig] return these values, then and after any
    further calls of the package's functions, none of which changes them. *)
Theorem init_resolves_configuration :
  ∀ (Getenv : string → string) (w0 : world),
    let w := (init Getenv w0).1 in
    let g := globals w in
    s3Enabled g = negb (String.eqb (s3Bucket g) "")
    ∧ s3Bucket g = Getenv s3BucketEnv
    ∧ s3Prefix g
      = (if s3Enabled g && String.eqb (Getenv s3PrefixEnv) ""
         then "karpenter-logs" else Getenv s3PrefixEnv)
    ∧ s3Region g
      = (if s3Enabled g && String.eqb (Getenv s3RegionEnv) ""
         then "us-east-1" else Getenv s3RegionEnv)
    ∧ (s3Enabled g = true →
       String.eqb (s3Prefix g) "" = false ∧ String.eqb (s3Region g) "" = false)
    ∧ new_events w0 w
      = (if s3Enabled g
         then [write_Stderr ("S3 upload enabled: bucket=" +:+ s3Bucket g
                             +:+ ", prefix=" +:+ s3Prefix g
                             +:+ ", region=" +:+ s3Region g +:+ LF)]
         else [])
    ∧ (∀ w' : world,
         rtc call w w' →
         globals w' = g
         ∧ IsEnabled w' = (w', s3Enabled g)
         ∧ GetConfig w' = (w', (s3Bucket g, s3Prefix g, s3Region g))).
Proof.
  intros Getenv w0 w g.
  split; [|split; [|split; [|split; [|split; [|split]]]]].
  7: { intros w' Hcalls%calls_globals. fold g in Hcalls.
       unfold IsEnabled, GetConfig, mbind, Eff_bind, read_globals, mret, Eff_ret.
       simpl. by rewrite Hcalls. }
  all: subst g w; unfold init, new_events;
    destruct (String.eqb (Getenv s3BucketEnv) "") eqn:Hb;
    destruct (String.eqb (Getenv s3PrefixEnv) "") eqn:Hp;
    destruct (String.eqb (Getenv s3RegionEnv) "") eqn:Hr;
    simpl; rewrite ?Hb, ?Hp, ?Hr, ?drop_app_length, ?drop_all; done.
Qed.

(** C8. When the gate is enabled and loading the SDK configuration fails with
    [cause], [UploadToS3] returns a [ConfigurationError]: an error that wraps
    [cause] under the text ["unable to load AWS SDK config: "]; and the only
    event of the run is the call that failed: [convertToCSV] is not called and
    nothing is written. *)
Theorem UploadToS3_config_error :
  ∀ (host : Host) (R : Type) (shape : Shape R) (ctx : Context_)
    (nodeclaimmap : gmap string R) (order : list (string * R)) (w : world)
    (cause : error),
    (IsEnabled w).2 = true →
    LoadDefaultConfig ctx (s3Region (globals w)) = inr cause →
    ∃ err : error,
      (UploadToS3 ctx nodeclaimmap order w).2 = Return (Some err)
      ∧ ConfigurationError err cause
      ∧ Unwrap err = Some cause
      ∧ Error err = "unable to load AWS SDK config: " +:+ Error cause
      ∧ new_events w (UploadToS3 ctx nodeclaimmap order w).1
        = [call_LoadDefaultConfig (s3Region (globals w))]
      ∧ (call_convertToCSV ∉ new_events w (UploadToS3 ctx nodeclaimmap order w).1)
      ∧ puts (new_events w (UploadToS3 ctx nodeclaimmap order w).1) = [].
Proof.
  intros host R shape ctx nodeclaimmap order w cause Hon Hload.
  change (s3Enabled (globals w) = true) in Hon.
  rewrite UploadToS3_new_events, UploadToS3_run. simpl. rewrite Hon, Hload. simpl.
  eexists. repeat split.
  rewrite elem_of_cons, elem_of_nil. by intros [|].
Qed.

Lemma UploadToS3_config_error_witness :
  let host := Stub.host (inr (sdkError "no credentials")) None Stub.clock in
  ∃ err : error,
    (UploadToS3 () TwoFields.nodeclaims TwoFields.order_cab Stub.enabled).2
    = Return (Some err)
    ∧ ConfigurationError err (sdkError "no credentials")
    ∧ Unwrap err = Some (sdkError "no credentials")
    ∧ Error err = "unable to load AWS SDK config: " +:+ Error (sdkError "no credentials")
    ∧ new_events Stub.enabled
        (UploadToS3 () TwoFields.nodeclaims TwoFields.order_cab Stub.enabled).1
      = [call_LoadDefaultConfig (s3Region (globals Stub.enabled))]
    ∧ (call_convertToCSV
       ∉ new_events Stub.enabled
           (UploadToS3 () TwoFields.nodeclaims TwoFields.order_cab Stub.enabled).1)
    ∧ puts (new_events Stub.enabled
              (UploadToS3 () TwoFields.nodeclaims TwoFields.order_cab Stub.enabled).1)
      = [].
Proof.
  exact (UploadToS3_config_error
           (Stub.host (inr (sdkError "no credentials")) None Stub.clock) _ _ ()
           TwoFields.nodeclaims TwoFields.order_cab Stub.enabled
           (sdkError "no credentials") eq_refl eq_refl).
Defined.

(** C9. When the gate is enabled, the SDK configuration loads, [convertToCSV]
    has returned [csvData], and the one [PutObject] fails with [cause], then
    [UploadToS3] returns an [UploadError]: an error that wraps [cause] under
    the text ["failed to upload to S3: "]; the run has called [PutObject] once and has
    written no line to [os.Stderr]. And in any run, a line written to
    [os.Stderr] is the success notice naming the bucket and the key, the run
    returns [nil], and its [PutObject] returned [nil]. *)
Theorem UploadToS3_upload_error :
  ∀ (host : Host) (R : Type) (shape : Shape R) (ctx : Context_)
    (nodeclaimmap : gmap string R) (order : list (string * R)) (w : world)
    (cfg : Config) (csvData : string) (cause : error),
    (IsEnabled w).2 = true →
    LoadDefaultConfig ctx (s3Region (globals w)) = inl cfg →
    convertToCSV nodeclaimmap order = Some csvData →
    PutObject (NewFromConfig cfg) ctx (upload_input (globals w) csvData) = Some cause →
    (∃ err : error,
       (UploadToS3 ctx nodeclaimmap order w).2 = Return (Some err)
       ∧ UploadError err cause
       ∧ Unwrap err = Some cause
       ∧ Error err = "failed to upload to S3: " +:+ Error cause
       ∧ puts (new_events w (UploadToS3 ctx nodeclaimmap order w).1)
         = [upload_input (globals w) csvData]
       ∧ notices (new_events w (UploadToS3 ctx nodeclaimmap order w).1) = [])
    ∧ (∀ (w' : world) (text : string),
         text ∈ notices (new_events w' (UploadToS3 ctx nodeclaimmap order w').1) →
         text = success_notice (globals w')
         ∧ (UploadToS3 ctx nodeclaimmap order w').2 = Return None
         ∧ ∃ cfg' input,
             LoadDefaultConfig ctx (s3Region (globals w')) = inl cfg'
             ∧ puts (new_events w' (UploadToS3 ctx nodeclaimmap order w').1) = [input]
             ∧ PutObject (NewFromConfig cfg') ctx input = None).
Proof.
  intros host R shape ctx nodeclaimmap order w cfg csvData cause Hon Hload Hcsv Hput.
  change (s3Enabled (globals w) = true) in Hon.
  split.
  - rewrite UploadToS3_new_events, UploadToS3_run. simpl.
    rewrite Hon, Hload, Hcsv, Hput. simpl. by eexists.
  - intros w' text. rewrite UploadToS3_new_events, UploadToS3_run. simpl.
    destruct (s3Enabled (globals w')); simpl; [|by rewrite elem_of_nil].
    destruct (LoadDefaultConfig ctx (s3Region (globals w'))) as [cfg'|cause'];
      simpl; [|by rewrite elem_of_nil].
    rewrite Hcsv.
    destruct (PutObject (NewFromConfig cfg') ctx (upload_input (globals w') csvData))
      as [cause'|] eqn:Hput'; simpl; [by rewrite elem_of_nil|].
    rewrite elem_of_cons, elem_of_nil. intros [->|[]].
    repeat split. by exists cfg', (upload_input (globals w') csvData).
Qed.

Lemma UploadToS3_upload_error_witness :
  let host := Stub.host (inl ()) (Some (sdkError "access denied")) Stub.clock in
  let run := UploadToS3 () TwoFields.nodeclaims TwoFields.order_cab Stub.enabled in
  ∃ err : error,
    run.2 = Return (Some err)
    ∧ UploadError err (sdkError "access denied")
    ∧ Unwrap err = Some (sdkError "access denied")
    ∧ Error err = "failed to upload to S3: " +:+ Error (sdkError "access denied")
    ∧ Key <$> puts (new_events Stub.enabled run.1)
      = ["logs/karpenter-nodeclaims-2024-01-02-03-04-05.csv"]
    ∧ notices (new_events Stub.enabled run.1) = [].
Proof.
  intros host run.
  destruct (UploadToS3_upload_error host _ _ ()
              TwoFields.nodeclaims TwoFields.order_cab Stub.enabled ()
              _ (sdkError "access denied") eq_refl eq_refl
              convertToCSV_cab eq_refl)
    as [(err & Hret & Hkind & Hun & Herr & Hputs & Hnot) _].
  exists err. subst run. rewrite Hputs. by repeat split.
Defined.

(** * Further properties *)

(** ** Counting bytes *)

Lemma line_feeds_count (s : string) : line_feeds s = count_byte "010" s.
Proof. induction s as [|c s IH]; [done|]. simpl. by rewrite IH. Qed.

Lemma count_byte_app (c : ascii) (a b : string) :
  count_byte c (a +:+ b) = count_byte c a + count_byte c b.
Proof.
  induction a as [|c' a IH]; [done|].
  rewrite string_app_cons. simpl. rewrite IH. lia.
Qed.

Lemma count_byte_joins (c : ascii) (k : nat) (l : list string) :
  Forall (λ a, count_byte c a = k) l → count_byte c (joins l) = k * length l.
Proof.
  induction 1 as [|a l Ha _ IH]; [simpl; lia|].
  change (joins (a :: l)) with (a +:+ joins l).
  rewrite count_byte_app, Ha, IH. simpl. lia.
Qed.

Lemma not_digit_comma : not_digit ",".
Proof. intros d. unfold pretty_N_char. by repeat case_match. Qed.

Lemma not_digit_LF : not_digit "010".
Proof. intros d. unfold pretty_N_char. by repeat case_match. Qed.

Lemma count_byte_pretty_N_go (c : ascii) (x : N) : ∀ s,
  not_digit c → count_byte c (pretty_N_go x s) = count_byte c s.
Proof.
  induction (N.lt_wf_0 x) as [x _ IH]; intros s Hc.
  assert (x = 0 ∨ 0 < x)%N as [->|Hx] by lia.
  { by rewrite pretty_N_go_0. }
  rewrite pretty_N_go_step by done.
  rewrite IH by (done || by apply N.div_lt).
  simpl. destruct (Ascii.eqb_spec (pretty_N_char (x `mod` 10)) c) as [Heq|]; [|done].
  by destruct (Hc _ Heq).
Qed.

(** The decimal text of a position holds digits only. *)
Lemma count_byte_itoa (c : ascii) (n : nat) :
  not_digit c → count_byte c (itoa n) = 0.
Proof.
  intros Hc. unfold itoa, pretty, pretty_nat, pretty, pretty_N.
  case_decide.
  - change (count_byte c "0") with ((if Ascii.eqb "0" c then 1 else 0) + 0).
    destruct (Ascii.eqb_spec "0"%char c) as [Heq|]; [|done].
    by destruct (Hc 0%N).
  - by rewrite count_byte_pretty_N_go.
Qed.

Section counts.
Context {R : Type} `{Shape R}.

Lemma count_byte_column (c : ascii) (i : nat) :
  not_digit c → c ≠ "["%char → c ≠ "]"%char →
  count_byte c (FieldName i) = 0 → count_byte c (column i) = 0.
Proof.
  intros Hc Hl Hr Hname. unfold column.
  rewrite !count_byte_app, Hname, count_byte_itoa by done.
  change (count_byte c "[") with ((if Ascii.eqb "[" c then 1 else 0) + 0).
  change (count_byte c "]") with ((if Ascii.eqb "]" c then 1 else 0) + 0).
  destruct (Ascii.eqb_spec "["%char c), (Ascii.eqb_spec "]"%char c);
    first [congruence | done].
Qed.

(** The header holds one comma per field, and no line feed, when the field
    names hold none. *)
Lemma commas_header :
  (∀ i, commas (FieldName i) = 0) → commas gen_header = NumField.
Proof.
  intros Hnames. rewrite gen_header_text. unfold header_text, commas.
  rewrite concat_cons, count_byte_app.
  rewrite (count_byte_joins _ 1).
  - rewrite !length_fmap, length_seq. by vm_compute count_byte at 1; lia.
  - apply Forall_fmap, Forall_fmap, Forall_forall. intros i _. simpl.
    rewrite count_byte_app, count_byte_column;
      [done|apply not_digit_comma|done|done|apply Hnames].
Qed.

Lemma line_feeds_header :
  (∀ i, line_feeds (FieldName i) = 0) → line_feeds gen_header = 0.
Proof.
  intros Hnames. rewrite gen_header_text, line_feeds_count. unfold header_text.
  rewrite concat_cons, count_byte_app.
  rewrite (count_byte_joins _ 0).
  - done.
  - apply Forall_fmap, Forall_fmap, Forall_forall. intros i _. simpl.
    rewrite count_byte_app, count_byte_column;
      [done|apply not_digit_LF|done|done|].
    rewrite <- line_feeds_count. apply Hnames.
Qed.

Lemma commas_row (v : keyvalue R) :
  commas (key v) = 0 → (∀ i, commas (FieldText (value v) i) = 0) →
  commas (row_text v) = NumField.
Proof.
  intros Hk Hf. unfold row_text, commas in *.
  rewrite concat_cons, !count_byte_app, Hk.
  rewrite (count_byte_joins _ 1).
  - rewrite !length_fmap, length_seq. simpl. lia.
  - apply Forall_fmap, Forall_fmap, Forall_forall. intros i _. simpl.
    rewrite count_byte_app. by rewrite (Hf i).
Qed.

End counts.

(** ** The sort on ascending and on tied input *)

Section sort_more.
Context {R : Type} `{Shape R}.

Lemma sift_ascending (x : keyvalue R) (todo : list (keyvalue R)) :
  Forall (not_after x) todo → sift x todo = (x, todo).
Proof.
  induction 1 as [|y todo Hy _ IH]; [done|].
  simpl. unfold not_after in Hy. by rewrite Hy, IH.
Qed.

Lemma outer_loop_ascending n : ∀ pre suf : list (keyvalue R),
  length suf = n → StronglySorted not_after suf →
  outer_loop n (length pre) (pre ++ suf) = Some (pre ++ suf).
Proof.
  induction n as [|n IH]; intros pre suf Hn Hs; [done|].
  destruct Hs as [|x todo Hs Hx]; [done|]. simpl in Hn.
  simpl outer_loop.
  replace (length (pre ++ x :: todo) - (length pre + 1)) with (length todo)
    by (rewrite length_app; simpl; lia).
  pose proof (inner_loop_sift todo pre x []) as Hin.
  simpl in Hin. rewrite Nat.add_0_r in Hin. rewrite Hin. simpl.
  rewrite sift_ascending by done. simpl.
  specialize (IH (pre ++ [x]) todo).
  rewrite length_app, <- app_assoc in IH. simpl in IH.
  rewrite Nat.add_1_r in IH. apply IH; [lia|done].
Qed.

(** The sort leaves an ascending slice as it is. *)
Lemma bubble_sort_ascending (s : list (keyvalue R)) :
  StronglySorted not_after s → bubble_sort s = Some s.
Proof. intros Hs. by apply (outer_loop_ascending (length s) []). Qed.

(** Two tied elements in front of one that is before the first of them. *)
Lemma bubble_sort_tied (a b c : keyvalue R) :
  not_after a b → not_after b a →
  Time_gt (Createdtime (value a)) (Createdtime (value c)) = true →
  bubble_sort [a; b; c] = Some [c; b; a].
Proof.
  unfold not_after. intros Hab Hba Hac.
  unfold bubble_sort. simpl. unfold compare_swap. simpl.
  rewrite Hab. simpl. rewrite Hac. simpl.
  unfold compare_swap. simpl. by rewrite Hba.
Qed.

End sort_more.

(** X1. When the [range] over the map yields the entries in ascending order
    of [Createdtime], [convertToCSV] writes the rows in exactly that order:
    the sort changes nothing, also among records created at the same time. *)
Theorem convertToCSV_keeps_ascending_range :
  ∀ (R : Type) (shape : Shape R)
    (nodeclaimmap : gmap string R) (order : list (string * R)),
    range_of nodeclaimmap order →
    StronglySorted not_after (of_entry <$> order) →
    convertToCSV nodeclaimmap order
    = Some (gen_header +:+ LF +:+ joins (row_text <$> (of_entry <$> order))).
Proof.
  intros R shape nodeclaimmap order Hr Hs.
  destruct (convertToCSV_text nodeclaimmap order Hr) as (rows & Hsort & _ & Hout).
  rewrite snapshot_fmap, bubble_sort_ascending in Hsort by done.
  injection Hsort as <-. by rewrite gen_header_text.
Qed.

Lemma twins_ascending :
  StronglySorted not_after (of_entry <$> TwoFields.order_yx).
Proof. repeat constructor. Qed.

Lemma convertToCSV_keeps_ascending_range_witness :
  convertToCSV TwoFields.twins TwoFields.order_yx
  = Some (gen_header +:+ LF
          +:+ joins (row_text <$> (of_entry <$> TwoFields.order_yx))).
Proof.
  exact (convertToCSV_keeps_ascending_range _ _ _ _ range_yx twins_ascending).
Defined.

(** X2. The sort is not stable: when the [range] yields two records created
    at the same time and then a record created before the first of them, the
    two come out in the reverse of the order the [range] yielded them. *)
Theorem convertToCSV_ties_reversed :
  ∀ (R : Type) (shape : Shape R) (nodeclaimmap : gmap string R)
    (ka kb kc : string) (va vb vc : R),
    range_of nodeclaimmap [(ka, va); (kb, vb); (kc, vc)] →
    Time_gt (Createdtime va) (Createdtime vb) = false →
    Time_gt (Createdtime vb) (Createdtime va) = false →
    Time_gt (Createdtime va) (Createdtime vc) = true →
    convertToCSV nodeclaimmap [(ka, va); (kb, vb); (kc, vc)]
    = Some (gen_header +:+ LF
            +:+ joins (row_text <$> [KeyValue kc vc; KeyValue kb vb; KeyValue ka va])).
Proof.
  intros R shape nodeclaimmap ka kb kc va vb vc Hr Hab Hba Hac.
  destruct (convertToCSV_text nodeclaimmap _ Hr) as (rows & Hsort & _ & Hout).
  change (snapshot [(ka, va); (kb, vb); (kc, vc)])
    with [KeyValue ka va; KeyValue kb vb; KeyValue kc vc] in Hsort.
  rewrite bubble_sort_tied in Hsort by done.
  injection Hsort as <-. by rewrite gen_header_text.
Qed.

Lemma NoDup_keys_abc : NoDup (Tied.order_abc.*1).
Proof. apply (bool_decide_unpack _). by vm_compute. Qed.

Lemma range_abc : range_of Tied.nodeclaims Tied.order_abc.
Proof. by apply range_of_list_to_map; [apply NoDup_keys_abc|]. Qed.

Lemma convertToCSV_ties_reversed_witness :
  convertToCSV Tied.nodeclaims Tied.order_abc
  = Some (gen_header +:+ LF
          +:+ joins (row_text <$> [KeyValue "c" (TwoFields.record "node-c" 3);
                                   KeyValue "b" (TwoFields.record "node-b" 7);
                                   KeyValue "a" (TwoFields.record "node-a" 7)])).
Proof.
  exact (convertToCSV_ties_reversed _ _ Tied.nodeclaims "a" "b" "c" _ _ _
           range_abc eq_refl eq_refl eq_refl).
Defined.

(** ** Lines, columns and identifiers of the text *)

Section rows_of_entries.
Context {R : Type} `{Shape R}.

Lemma Forall_rows (P : keyvalue R → Prop) (nodeclaimmap : gmap string R)
    (rows : list (keyvalue R)) :
  rows ≡ₚ entries nodeclaimmap →
  (∀ k v, nodeclaimmap !! k = Some v → P (KeyValue k v)) →
  Forall P rows.
Proof.
  intros Hp HP. apply Forall_forall. intros [k v] Hin.
  rewrite Hp in Hin. apply elem_of_entries in Hin. by apply HP.
Qed.

Lemma keys_of_entries (nodeclaimmap : gmap string R) :
  key <$> entries nodeclaimmap = (map_to_list nodeclaimmap).*1.
Proof.
  unfold entries. rewrite <- list_fmap_compose.
  by apply list_fmap_ext.
Qed.

End rows_of_entries.

(** X3. When no field name, identifier or field text holds a line feed, the
    text [convertToCSV] returns has one line more than the map has entries:
    the header line and one line per record. *)
Theorem convertToCSV_line_count :
  ∀ (R : Type) (shape : Shape R)
    (nodeclaimmap : gmap string R) (order : list (string * R)),
    range_of nodeclaimmap order →
    (∀ i, line_feeds (FieldName i) = 0) →
    (∀ k v, nodeclaimmap !! k = Some v →
            line_feeds k = 0 ∧ ∀ i, line_feeds (FieldText v i) = 0) →
    ∃ out : string,
      convertToCSV nodeclaimmap order = Some out
      ∧ line_feeds out = S (size nodeclaimmap).
Proof.
  intros R shape nodeclaimmap order Hr Hnames Hentries.
  destruct (convertToCSV_text nodeclaimmap order Hr) as (rows & _ & Hp & Hout).
  eexists. split; [exact Hout|].
  rewrite <- gen_header_text, !line_feeds_app, line_feeds_header by done.
  rewrite (line_feeds_count (joins _)), (count_byte_joins _ 1).
  - rewrite length_fmap, Hp. unfold entries.
    rewrite length_fmap, length_map_to_list.
    change (line_feeds LF) with 1. lia.
  - apply Forall_fmap. apply (Forall_rows _ nodeclaimmap); [done|].
    intros k v Hkv. simpl. rewrite <- line_feeds_count.
    destruct (Hentries k v Hkv) as [Hk Hf]. by apply row_text_one_line.
Qed.

Lemma TwoFields_names_one_line (i : nat) : line_feeds (FieldName i) = 0.
Proof. by destruct i as [|[|i]]. Qed.

Lemma nodeclaims_one_line (k : string) (v : TwoFields.Nodeclaimstruct) :
  TwoFields.nodeclaims !! k = Some v →
  line_feeds k = 0 ∧ ∀ i, line_feeds (FieldText v i) = 0.
Proof.
  intros Hkv.
  apply (elem_of_list_to_map_2 TwoFields.order_cab) in Hkv.
  unfold TwoFields.order_cab in Hkv.
  rewrite !elem_of_cons, elem_of_nil in Hkv.
  destruct Hkv as [Hkv|[Hkv|[Hkv|[]]]]; injection Hkv as -> ->;
    (split; [done|]); by intros [|[|i]].
Qed.

Lemma convertToCSV_line_count_witness :
  ∃ out : string,
    convertToCSV TwoFields.nodeclaims TwoFields.order_bca = Some out
    ∧ line_feeds out = S (size TwoFields.nodeclaims).
Proof.
  exact (convertToCSV_line_count _ _ _ _ range_bca
           TwoFields_names_one_line nodeclaims_one_line).
Defined.

(** X4. When no field name, identifier or field text holds a comma, the
    header and every row [convertToCSV] writes hold the same number of
    commas, one per field: the rows line up with the header. *)
Theorem convertToCSV_columns_align :
  ∀ (R : Type) (shape : Shape R)
    (nodeclaimmap : gmap string R) (order : list (string * R)),
    range_of nodeclaimmap order →
    (∀ i, commas (FieldName i) = 0) →
    (∀ k v, nodeclaimmap !! k = Some v →
            commas k = 0 ∧ ∀ i, commas (FieldText v i) = 0) →
    ∃ rows : list (keyvalue R),
      convertToCSV nodeclaimmap order
      = Some (gen_header +:+ LF +:+ joins (row_text <$> rows))
      ∧ commas gen_header = NumField
      ∧ Forall (λ v, commas (row_text v) = NumField) rows.
Proof.
  intros R shape nodeclaimmap order Hr Hnames Hentries.
  destruct (convertToCSV_text nodeclaimmap order Hr) as (rows & _ & Hp & Hout).
  exists rows. split; [by rewrite gen_header_text|].
  split; [by apply commas_header|].
  apply (Forall_rows _ nodeclaimmap); [done|].
  intros k v Hkv. destruct (Hentries k v Hkv) as [Hk Hf]. by apply commas_row.
Qed.

Lemma TwoFields_names_no_comma (i : nat) : commas (FieldName i) = 0.
Proof. by destruct i as [|[|i]]. Qed.

Lemma nodeclaims_no_comma (k : string) (v : TwoFields.Nodeclaimstruct) :
  TwoFields.nodeclaims !! k = Some v →
  commas k = 0 ∧ ∀ i, commas (FieldText v i) = 0.
Proof.
  intros Hkv.
  apply (elem_of_list_to_map_2 TwoFields.order_cab) in Hkv.
  unfold TwoFields.order_cab in Hkv.
  rewrite !elem_of_cons, elem_of_nil in Hkv.
  destruct Hkv as [Hkv|[Hkv|[Hkv|[]]]]; injection Hkv as -> ->;
    (split; [done|]); by intros [|[|i]].
Qed.

Lemma convertToCSV_columns_align_witness :
  ∃ rows : list (keyvalue TwoFields.Nodeclaimstruct),
    convertToCSV TwoFields.nodeclaims TwoFields.order_bca
    = Some (gen_header +:+ LF +:+ joins (row_text <$> rows))
    ∧ commas gen_header = NumField
    ∧ Forall (λ v, commas (row_text v) = NumField) rows.
Proof.
  exact (convertToCSV_columns_align _ _ _ _ range_bca
           TwoFields_names_no_comma nodeclaims_no_comma).
Defined.

(** A comma in a field text puts the row out of line with the header. *)
Example comma_breaks_alignment :
  commas (row_text (KeyValue "x" (TwoFields.record "one,two" 7))) = 3
  ∧ commas (@gen_header TwoFields.Nodeclaimstruct _) = 2.
Proof. by vm_compute. Qed.

(** X5. Every identifier of the map heads exactly one row of the text
    [convertToCSV] returns, with the record the map holds under it, and no
    row has another identifier. *)
Theorem convertToCSV_one_row_per_identifier :
  ∀ (R : Type) (shape : Shape R)
    (nodeclaimmap : gmap string R) (order : list (string * R)),
    range_of nodeclaimmap order →
    ∃ rows : list (keyvalue R),
      convertToCSV nodeclaimmap order
      = Some (gen_header +:+ LF +:+ joins (row_text <$> rows))
      ∧ NoDup (key <$> rows)
      ∧ (∀ k v, KeyValue k v ∈ rows ↔ nodeclaimmap !! k = Some v).
Proof.
  intros R shape nodeclaimmap order Hr.
  destruct (convertToCSV_text nodeclaimmap order Hr) as (rows & _ & Hp & Hout).
  exists rows. split; [by rewrite gen_header_text|]. split.
  - rewrite Hp, keys_of_entries. apply NoDup_fst_map_to_list.
  - intros k v. rewrite Hp. unfold entries. rewrite list_elem_of_fmap. split.
    + intros ([k' v'] & [= -> ->] & Hin). by apply elem_of_map_to_list in Hin.
    + intros Hkv. exists (k, v). split; [done|]. by apply elem_of_map_to_list.
Qed.

Lemma convertToCSV_one_row_per_identifier_witness :
  ∃ rows : list (keyvalue TwoFields.Nodeclaimstruct),
    convertToCSV TwoFields.nodeclaims TwoFields.order_bca
    = Some (gen_header +:+ LF +:+ joins (row_text <$> rows))
    ∧ NoDup (key <$> rows)
    ∧ (∀ k v, KeyValue k v ∈ rows ↔ TwoFields.nodeclaims !! k = Some v).
Proof.
  exact (convertToCSV_one_row_per_identifier _ _ _ _ range_bca).
Defined.

(** ** What a run of UploadToS3 does *)

(** X6. In every run of [UploadToS3] the events are an opening part of one
    fixed sequence: load the SDK configuration for [s3Region], make the
    client, call [convertToCSV], read the clock, one [PutObject], the notice.
    So there is at most one [PutObject] and at most one line on [os.Stderr],
    nothing is tried again, and what is put is the text [convertToCSV]
    returned, as ["text/csv"], into [s3Bucket]. *)
Theorem UploadToS3_one_attempt :
  ∀ (host : Host) (R : Type) (shape : Shape R) (ctx : Context_)
    (nodeclaimmap : gmap string R) (order : list (string * R)) (w : world),
    let g := globals w in
    let evs := new_events w (UploadToS3 ctx nodeclaimmap order w).1 in
    (∃ csvData,
       convertToCSV nodeclaimmap order = Some csvData
       ∧ evs `prefix_of`
           [call_LoadDefaultConfig (s3Region g); call_NewFromConfig;
            call_convertToCSV; call_Now; call_PutObject (upload_input g csvData);
            write_Stderr (success_notice g)])
    ∧ (length (puts evs) ≤ 1)%nat
    ∧ (length (notices evs) ≤ 1)%nat
    ∧ (∀ input, input ∈ puts evs →
         Bucket input = s3Bucket g
         ∧ ContentType input = "text/csv"
         ∧ convertToCSV nodeclaimmap order = Some (Body input)).
Proof.
  intros host R shape ctx nodeclaimmap order w g evs. subst evs g.
  rewrite UploadToS3_new_events. simpl.
  destruct (convertToCSV_returns nodeclaimmap order) as [csvData Hcsv].
  rewrite Hcsv. split; [exists csvData; split; [done|]|].
  - repeat case_match; (eexists; simpl; reflexivity).
  - repeat case_match; simpl; (split; [lia|]); (split; [lia|]);
      intros input; rewrite ?elem_of_cons, ?elem_of_nil;
      intros Hin; try done; by destruct Hin as [->|[]].
Qed.

(** X7. [UploadToS3] returns [nil] in two cases only: the gate is disabled,
    or the configuration loaded and [PutObject] returned [nil]; the success
    notice is written in the second case and in no other run. *)
Theorem UploadToS3_nil_iff :
  ∀ (host : Host) (R : Type) (shape : Shape R) (ctx : Context_)
    (nodeclaimmap : gmap string R) (order : list (string * R)) (w : world),
    let g := globals w in
    let uploaded :=
      ∃ cfg csvData,
        s3Enabled g = true
        ∧ LoadDefaultConfig ctx (s3Region g) = inl cfg
        ∧ convertToCSV nodeclaimmap order = Some csvData
        ∧ PutObject (NewFromConfig cfg) ctx (upload_input g csvData) = None in
    ((UploadToS3 ctx nodeclaimmap order w).2 = Return None
     ↔ s3Enabled g = false ∨ uploaded)
    ∧ (notices (new_events w (UploadToS3 ctx nodeclaimmap order w).1)
       = [success_notice g] ↔ uploaded).
Proof.
  intros host R shape ctx nodeclaimmap order w g uploaded. subst uploaded g.
  rewrite UploadToS3_new_events, UploadToS3_run. simpl.
  destruct (convertToCSV_returns nodeclaimmap order) as [csvData Hcsv].
  rewrite Hcsv.
  destruct (s3Enabled (globals w)); simpl.
  2: { split; (split; [eauto; done|]); [done|]. by intros (? & ? & ? & _). }
  destruct (LoadDefaultConfig ctx (s3Region (globals w))) as [cfg|cause]; simpl.
  2: { split; (split; [done|]); [intros [?|(? & ? & _ & ? & _)]; done|].
       by intros (? & ? & _ & ? & _). }
  destruct (PutObject (NewFromConfig cfg) ctx (upload_input (globals w) csvData))
    as [cause|] eqn:Hput; simpl.
  - split; (split; [done|]).
    + intros [?|(cfg' & csv' & _ & [= <-] & [= <-] & Hput')]; [done|congruence].
    + intros (cfg' & csv' & _ & [= <-] & [= <-] & Hput'). congruence.
  - split; (split; [intros _|done]); [right|]; by exists cfg, csvData.
Qed.

(** X8. Every error [UploadToS3] returns is of one of two kinds, and never of
    both: a [ConfigurationError] of the error [LoadDefaultConfig] returned,
    or an [UploadError] of the error [PutObject] returned. *)
Theorem UploadToS3_error_kinds :
  ∀ (host : Host) (R : Type) (shape : Shape R) (ctx : Context_)
    (nodeclaimmap : gmap string R) (order : list (string * R)) (w : world)
    (err : error),
    (UploadToS3 ctx nodeclaimmap order w).2 = Return (Some err) →
    ((∃ cause,
        LoadDefaultConfig ctx (s3Region (globals w)) = inr cause
        ∧ ConfigurationError err cause)
     ∨ (∃ cfg csvData cause,
          LoadDefaultConfig ctx (s3Region (globals w)) = inl cfg
          ∧ convertToCSV nodeclaimmap order = Some csvData
          ∧ PutObject (NewFromConfig cfg) ctx (upload_input (globals w) csvData)
            = Some cause
          ∧ UploadError err cause))
    ∧ (∀ cause cause', ConfigurationError err cause → ¬ UploadError err cause').
Proof.
  intros host R shape ctx nodeclaimmap order w err.
  rewrite UploadToS3_run. simpl. intros Hret.
  split; [|apply ConfigurationError_not_UploadError].
  destruct (s3Enabled (globals w)); [|done].
  destruct (LoadDefaultConfig ctx (s3Region (globals w))) as [cfg|cause].
  2: { injection Hret as <-. left. by exists cause. }
  destruct (convertToCSV nodeclaimmap order) as [csvData|]; [|done].
  destruct (PutObject (NewFromConfig cfg) ctx (upload_input (globals w) csvData))
    as [cause|] eqn:Hput; [|done].
  injection Hret as <-. right. by exists cfg, csvData, cause.
Qed.

Lemma UploadToS3_error_kinds_witness :
  let host := Stub.host (inl ()) (Some (sdkError "access denied")) Stub.clock in
  let err := Errorf_w "failed to upload to S3: " (sdkError "access denied") in
  ((∃ cause,
      LoadDefaultConfig () (s3Region (globals Stub.enabled)) = inr cause
      ∧ ConfigurationError err cause)
   ∨ (∃ cfg csvData cause,
        LoadDefaultConfig () (s3Region (globals Stub.enabled)) = inl cfg
        ∧ convertToCSV TwoFields.nodeclaims TwoFields.order_cab = Some csvData
        ∧ PutObject (NewFromConfig cfg) () (upload_input (globals Stub.enabled) csvData)
          = Some cause
        ∧ UploadError err cause))
  ∧ (∀ cause cause', ConfigurationError err cause → ¬ UploadError err cause').
Proof.
  exact (UploadToS3_error_kinds
           (Stub.host (inl ()) (Some (sdkError "access denied")) Stub.clock) _ _ ()
           TwoFields.nodeclaims TwoFields.order_cab Stub.enabled _ eq_refl).
Defined.

(** ** From the environment to the object *)

(** X9. With a bucket set and neither prefix nor region set, [init] followed
    by [UploadToS3] loads the SDK configuration for ["us-east-1"] first, and
    what it puts goes to that bucket under
    ["karpenter-logs/karpenter-nodeclaims-<time>.csv"]. *)
Theorem init_then_UploadToS3_defaults :
  ∀ (Getenv : string → string) (w0 : world)
    (host : Host) (R : Type) (shape : Shape R) (ctx : Context_)
    (nodeclaimmap : gmap string R) (order : list (string * R)),
    Getenv s3BucketEnv ≠ "" →
    Getenv s3PrefixEnv = "" →
    Getenv s3RegionEnv = "" →
    let w := (init Getenv w0).1 in
    let evs := new_events w (UploadToS3 ctx nodeclaimmap order w).1 in
    (∃ rest, evs = call_LoadDefaultConfig "us-east-1" :: rest)
    ∧ (∀ input, input ∈ puts evs →
         Bucket input = Getenv s3BucketEnv
         ∧ Key input
           = "karpenter-logs/karpenter-nodeclaims-"
             +:+ Format Now "2006-01-02-15-04-05" +:+ ".csv").
Proof.
  intros Getenv w0 host R shape ctx nodeclaimmap order Hb Hp Hr w evs.
  assert (Hg : globals w
               = {| s3Bucket := Getenv s3BucketEnv; s3Prefix := "karpenter-logs";
                    s3Region := "us-east-1"; s3Enabled := true |}).
  { subst w. unfold init. rewrite Hp, Hr.
    apply String.eqb_neq in Hb. by rewrite Hb. }
  subst evs. rewrite UploadToS3_new_events. rewrite Hg. simpl.
  split.
  - repeat case_match; by eexists.
  - intros input.
    repeat case_match; simpl; rewrite ?elem_of_cons, ?elem_of_nil;
      intros Hin; try done; by destruct Hin as [->|[]].
Qed.

Lemma init_then_UploadToS3_defaults_witness :
  let Getenv := λ name, if String.eqb name s3BucketEnv then "archive" else "" in
  let host := Stub.host (inl ()) None Stub.clock in
  let w := (init Getenv world0).1 in
  let evs :=
    new_events w (UploadToS3 () TwoFields.nodeclaims TwoFields.order_cab w).1 in
  (∃ rest, evs = call_LoadDefaultConfig "us-east-1" :: rest)
  ∧ (∀ input, input ∈ puts evs →
       Bucket input = "archive"
       ∧ Key input
         = "karpenter-logs/karpenter-nodeclaims-"
           +:+ Format Stub.clock "2006-01-02-15-04-05" +:+ ".csv").
Proof.
  exact (init_then_UploadToS3_defaults
           (λ name, if String.eqb name s3BucketEnv then "archive" else "") world0
           (Stub.host (inl ()) None Stub.clock) _ _ ()
           TwoFields.nodeclaims TwoFields.order_cab
           ltac:(discriminate) eq_refl eq_refl).
Defined.

(** ** Keys of different seconds *)

Lemma digit_inj (a b : Z) :
  (0 ≤ a ≤ 9)%Z → (0 ≤ b ≤ 9)%Z → digit a = digit b → a = b.
Proof.
  intros Ha Hb Heq. apply (f_equal nat_of_ascii) in Heq.
  unfold digit in Heq. rewrite !nat_ascii_embedding in Heq by lia. lia.
Qed.

Lemma two_digits_inj (x y : Z) :
  (0 ≤ x ≤ 99)%Z → (0 ≤ y ≤ 99)%Z → two_digits x = two_digits y → x = y.
Proof.
  intros Hx Hy [= H1 H0].
  apply digit_inj in H1, H0;
    Z.to_euclidean_division_equations; lia.
Qed.

Lemma four_digits_inj (x y : Z) :
  (0 ≤ x ≤ 9999)%Z → (0 ≤ y ≤ 9999)%Z → four_digits x = four_digits y → x = y.
Proof.
  intros Hx Hy [= H3 H2 H1 H0].
  apply digit_inj in H3, H2, H1, H0;
    Z.to_euclidean_division_equations; lia.
Qed.

Lemma string_app_inj_length (a b c d : string) :
  String.length a = String.length b → a +:+ c = b +:+ d → a = b ∧ c = d.
Proof.
  revert b. induction a as [|ch a IH]; intros [|ch' b] Hlen Heq; try done.
  rewrite !string_app_cons in Heq. injection Heq as -> Heq.
  destruct (IH b) as [-> ->]; [by injection Hlen|done|done].
Qed.

Lemma stamp_inj (t1 t2 : instant) :
  in_calendar t1 → in_calendar t2 → stamp t1 = stamp t2 → t1 = t2.
Proof.
  intros (HY1 & HM1 & HD1 & Hh1 & Hm1 & Hs1) (HY2 & HM2 & HD2 & Hh2 & Hm2 & Hs2).
  unfold stamp, four_digits, two_digits. intros Heq.
  cbv [String.concat String.append] in Heq.
  repeat match goal with
         | H : String _ _ = String _ _ |- _ => injection H as ? H
         end.
  assert (Year t1 = Year t2)
    by (apply four_digits_inj; [lia|lia|unfold four_digits; congruence]).
  assert (Month t1 = Month t2)
    by (apply two_digits_inj; [lia|lia|unfold two_digits; congruence]).
  assert (Day t1 = Day t2)
    by (apply two_digits_inj; [lia|lia|unfold two_digits; congruence]).
  assert (Hour t1 = Hour t2)
    by (apply two_digits_inj; [lia|lia|unfold two_digits; congruence]).
  assert (Minute t1 = Minute t2)
    by (apply two_digits_inj; [lia|lia|unfold two_digits; congruence]).
  assert (Second t1 = Second t2)
    by (apply two_digits_inj; [lia|lia|unfold two_digits; congruence]).
  destruct t1, t2; simpl in *; by subst.
Qed.

(** X10. For one prefix, the keys made at two instants a calendar shows are
    the same only when the instants are the same to the second: exports made
    in different seconds never go to the same key. *)
Theorem object_key_injective :
  ∀ (prefix : string) (t1 t2 : instant),
    in_calendar t1 → in_calendar t2 →
    Sprintf_key prefix (Format t1 "2006-01-02-15-04-05")
    = Sprintf_key prefix (Format t2 "2006-01-02-15-04-05") →
    t1 = t2.
Proof.
  intros prefix t1 t2 H1 H2. rewrite !Format_stamp by done.
  unfold Sprintf_key. intros Heq.
  apply String.app_inj, String.app_inj in Heq.
  apply string_app_inj_length in Heq as [Heq _]; [|by rewrite !stamp_length].
  by apply stamp_inj.
Qed.

Lemma object_key_injective_witness : Stub.clock = Stub.clock.
Proof.
  exact (object_key_injective "logs/" Stub.clock Stub.clock
           in_calendar_clock in_calendar_clock eq_refl).
Defined.

(** ** No bucket, no upload *)

(** X11. With no bucket set, [init] leaves the gate disabled and the prefix
    and the region as they were read, also when these are set; [UploadToS3]
    then returns [nil] and does nothing. *)
Theorem init_then_UploadToS3_disabled :
  ∀ (Getenv : string → string) (w0 : world)
    (host : Host) (R : Type) (shape : Shape R) (ctx : Context_)
    (nodeclaimmap : gmap string R) (order : list (string * R)),
    Getenv s3BucketEnv = "" →
    let w := (init Getenv w0).1 in
    (IsEnabled w).2 = false
    ∧ (GetConfig w).2 = ("", Getenv s3PrefixEnv, Getenv s3RegionEnv)
    ∧ new_events w0 w = []
    ∧ UploadToS3 ctx nodeclaimmap order w = (w, Return None).
Proof.
  intros Getenv w0 host R shape ctx nodeclaimmap order Hb w.
  assert (Hw : w = {| globals := {| s3Bucket := ""; s3Prefix := Getenv s3PrefixEnv;
                                    s3Region := Getenv s3RegionEnv;
                                    s3Enabled := false |};
                      trace := trace w0 |}).
  { subst w. unfold init. by rewrite Hb. }
  rewrite UploadToS3_run, Hw. unfold new_events. simpl.
  by rewrite drop_all.
Qed.

Lemma init_then_UploadToS3_disabled_witness :
  let Getenv := λ name, if String.eqb name s3BucketEnv then "" else "logs/" in
  let host := Stub.host (inl ()) None Stub.clock in
  let w := (init Getenv world0).1 in
  (IsEnabled w).2 = false
  ∧ (GetConfig w).2 = ("", "logs/", "logs/")
  ∧ new_events world0 w = []
  ∧ UploadToS3 () TwoFields.nodeclaims TwoFields.order_cab w = (w, Return None).
Proof.
  exact (init_then_UploadToS3_disabled
           (λ name, if String.eqb name s3BucketEnv then "" else "logs/") world0
           (Stub.host (inl ()) None Stub.clock) _ _ ()
           TwoFields.nodeclaims TwoFields.order_cab eq_refl).
Defined.

(** ** Indices of the sort *)

(** X12. The comparison of the sort panics exactly when one of its two
    indices is outside the slice, and the two loops never bring it there: on
    every slice the sort returns, with the same elements and the same
    length. *)
Theorem bubble_sort_in_range :
  ∀ (R : Type) (shape : Shape R) (s : list (keyvalue R)),
    (∀ i j, compare_swap i j s = None ↔ (length s ≤ i ∨ length s ≤ j)%nat)
    ∧ ∃ out, bubble_sort s = Some out ∧ out ≡ₚ s ∧ length out = length s.
Proof.
  intros R shape s. split.
  - intros i j. unfold compare_swap.
    destruct (s !! i) as [si|] eqn:Hi; simpl.
    + destruct (s !! j) as [sj|] eqn:Hj; simpl.
      * apply lookup_lt_Some in Hi, Hj.
        split; [by destruct (Time_gt _ _)|lia].
      * apply lookup_lt_Some in Hi. apply lookup_ge_None in Hj.
        split; [by right|done].
    + apply lookup_ge_None in Hi. split; [by left|done].
  - destruct (bubble_sort_perm s) as (out & Hsort & Hp).
    exists out. split; [done|]. split; [done|]. by rewrite Hp.
Qed.
